(** * http-users: API tokens of the User resource

    A shallow embedding of [lib/http-users/user/tokens.js]: the resource
    extensions [User.tokens], [User.deleteToken], [User.addToken] and the
    three route handlers of [/users/:username/tokens].

    Conventions of the embedding.
    - A JavaScript object used as a map is an association list kept in
      property enumeration order ([for ... in] visits the list from left to
      right): array indices first, in ascending order, then the other
      names in the order of their creation.  Reading a property looks at
      the own properties first and at [Object.prototype] next.
    - Token values are strings: the result of [uuid.v4()] is the only
      value tokens.js ever stores in a token map.
    - [User.get] and [User.update] belong to the storage layer; [User.get]
      hands out a snapshot of the stored document.
    - Node-style continuations are written in direct style: [callback(err)]
      is [Fail err], [callback(null, x)] is [Ok x], and an exception raised
      while the continuation runs is [Throw].
    - [uuid.v4()], [Math.random()] and the failures of the storage engine
      are read from an environment of oracles, indexed by the number of
      draws made so far. *)

From Stdlib Require Import String Ascii List NArith Lia Bool.
From stdpp Require Import base option list strings gmap.

Local Open Scope string_scope.

(* ===================================================================== *)
(** * JavaScript objects and primitives *)
(* ===================================================================== *)

Module JS.

(** A plain object, as the list of its own properties in enumeration
    order; [V] is the type of their values.  Its prototype is
    [Object.prototype]. *)
Abbreviation obj V := (list (string * V)).

(** The own property of [o] named [k], as [hasOwnProperty] sees it.  The
    expression [o[k]] of the code is [read] below, which goes on to the
    prototype. *)
Fixpoint obj_get {V} (o : obj V) (k : string) : option V :=
  match o with
  | [] => None
  | (k', v) :: rest => if String.eqb k' k then Some v else obj_get rest k
  end.

(** The names of the properties of [Object.prototype]. *)
Definition prototype_names : list string :=
  ["constructor"; "toString"; "toLocaleString"; "valueOf";
   "hasOwnProperty"; "isPrototypeOf"; "propertyIsEnumerable";
   "__defineGetter__"; "__defineSetter__"; "__lookupGetter__";
   "__lookupSetter__"; "__proto__"].

(** What reading a property of an object with string properties yields:
    [undefined], a string, or the property of that name of
    [Object.prototype] (a function; for ["__proto__"] the prototype
    itself). *)
Inductive value : Type :=
  | undefined
  | str (s : string)
  | builtin (name : string).

(** [o[k]]: the own property, else the inherited one, else [undefined]. *)
Definition read (o : obj string) (k : string) : value :=
  match obj_get o k with
  | Some s => str s
  | None => if bool_decide (k ∈ prototype_names) then builtin k else undefined
  end.

(** [k] as an array index: the canonical decimal numeral of an integer
    below [2^32 - 1]. *)
Definition decimal_digit (c : ascii) : option N :=
  let n := N_of_ascii c in
  if ((48 <=? n) && (n <=? 57))%N then Some (n - 48)%N else None.

Fixpoint decimal (s : string) (acc : N) : option N :=
  match s with
  | EmptyString => Some acc
  | String c rest =>
      match decimal_digit c with
      | Some d => decimal rest (acc * 10 + d)%N
      | None => None
      end
  end.

Definition array_index (k : string) : option N :=
  match k with
  | EmptyString => None
  | String "0" (String _ _) => None
  | _ =>
      match decimal k 0%N with
      | Some n => if (n <? 4294967295)%N then Some n else None
      | None => None
      end
  end.

(** Overwriting the own property [k], which keeps its place. *)
Fixpoint obj_replace {V} (o : obj V) (k : string) (v : V) : obj V :=
  match o with
  | [] => []
  | (k', v') :: rest =>
      if String.eqb k' k then (k, v) :: rest
      else (k', v') :: obj_replace rest k v
  end.

(** Adding the property [k], the array index [i]: array indices are
    enumerated first, in ascending order. *)
Fixpoint obj_insert {V} (i : N) (o : obj V) (k : string) (v : V) : obj V :=
  match o with
  | [] => [(k, v)]
  | (k', v') :: rest =>
      match array_index k' with
      | Some j =>
          if (j <? i)%N then (k', v') :: obj_insert i rest k v
          else (k, v) :: o
      | None => (k, v) :: o
      end
  end.

(** [o[k] = v].  An own property is overwritten in place.  Otherwise the
    name ["__proto__"] reaches the setter of [Object.prototype], which
    leaves the object as it is for the values tokens.js assigns (strings,
    [undefined], [Object.prototype] itself); any other name becomes a new
    own property, enumerated among the array indices when it is one and
    last when it is not. *)
Definition obj_set {V} (o : obj V) (k : string) (v : V) : obj V :=
  match obj_get o k with
  | Some _ => obj_replace o k v
  | None =>
      if String.eqb k "__proto__" then o
      else
        match array_index k with
        | Some i => obj_insert i o k v
        | None => (o ++ [(k, v)])%list
        end
  end.

(** [delete o[k]]: removes the own property, if there is one. *)
Fixpoint obj_delete {V} (o : obj V) (k : string) : obj V :=
  match o with
  | [] => []
  | (k', v') :: rest =>
      if String.eqb k' k then obj_delete rest k else (k', v') :: obj_delete rest k
  end.

(** The keys visited by [for (var key in o)]: the own properties;
    [Object.prototype] has no enumerable property. *)
Definition obj_keys {V} (o : obj V) : list string := map fst o.

Definition obj_values {V} (o : obj V) : list V := map snd o.

(** Property names of an object are unique. *)
Definition obj_wf {V} (o : obj V) : Prop := NoDup (obj_keys o).

(** Number of properties named [k]. *)
Definition obj_count {V} (o : obj V) (k : string) : nat :=
  length (filter (fun kv => fst kv = k) o).

(** [typeof v] *)
Definition typeof (v : value) : string :=
  match v with
  | undefined => "undefined"
  | str _ => "string"
  | builtin name => if String.eqb name "__proto__" then "object" else "function"
  end.

(** [!v]: [undefined] and the empty string are falsy, functions and
    objects are not. *)
Definition not (v : value) : bool :=
  match v with
  | undefined => true
  | str s => String.eqb s ""
  | builtin _ => false
  end.

(** [v === s] for a string [s]. *)
Definition strict_eq (v : value) (s : string) : bool :=
  match v with
  | str s' => String.eqb s' s
  | _ => false
  end.

(** The digit characters of [Number.prototype.toString(radix)]. *)
Definition digit_char (d : N) : ascii :=
  match String.get (N.to_nat d) "0123456789abcdefghijklmnopqrstuvwxyz" with
  | Some c => c
  | None => "0"%char
  end.

Fixpoint toString36_aux (fuel : nat) (n : N) (acc : string) : string :=
  match fuel with
  | O => acc
  | S fuel' =>
      let acc' := String (digit_char (n mod 36)) acc in
      if (n / 36 =? 0)%N then acc' else toString36_aux fuel' (n / 36) acc'
  end.

(** [n.toString(36)] for a non-negative integer [n]; the number of binary
    digits of [n] bounds the number of base-36 digits. *)
Definition toString36 (n : N) : string :=
  toString36_aux (S (N.to_nat (N.size n))) n "".

(** The value of a base-36 digit character, [None] for any other one. *)
Definition digit_value (c : ascii) : option N :=
  let n := N_of_ascii c in
  if ((48 <=? n) && (n <=? 57))%N then Some (n - 48)%N
  else if ((97 <=? n) && (n <=? 122))%N then Some (n - 87)%N
  else None.

(** [parseInt(s, 36)] on a string of base-36 digits. *)
Fixpoint parse36_aux (s : string) (acc : N) : option N :=
  match s with
  | EmptyString => Some acc
  | String c rest =>
      match digit_value c with
      | Some d => parse36_aux rest (acc * 36 + d)%N
      | None => None
      end
  end.

Definition parse36 (s : string) : option N :=
  match s with
  | EmptyString => None
  | _ => parse36_aux s 0%N
  end.

End JS.

(* ===================================================================== *)
(** * Continuations, the stored documents and the world *)
(* ===================================================================== *)

(** Errors handed to a continuation.  [Error message] is a JavaScript
    [new Error(message)]; [NotFound] and [StorageError] are raised by the
    storage layer. *)
Inductive err : Type :=
  | NotFound
  | StorageError
  | Error (message : string).

(** Exceptions raised by the JavaScript runtime. *)
Inductive exn : Type :=
  | TypeError.

(** How a call with a continuation ends. *)
Inductive outcome (A : Type) : Type :=
  | Ok (a : A)
  | Fail (e : err)
  | Throw (x : exn).

Arguments Ok {A} a.
Arguments Fail {A} e.
Arguments Throw {A} x.

(** [a || b] on a value that is an object or [undefined]. *)
Definition or_else {A} (a : option A) (b : A) : A :=
  match a with
  | Some x => x
  | None => b
  end.

(** The token map of an account: token name to token value. *)
Abbreviation tokmap := (JS.obj string).

(** A user document.  [apiTokens] is [None] while the document has no such
    property; [attributes] stands for every other property of the document
    (email, password, ...). *)
Record account : Type := {
  apiTokens : option tokmap;
  attributes : gmap string string
}.

(** The object of properties given to [User.update]. *)
Record patch : Type := {
  patch_apiTokens : option tokmap;
  patch_attributes : gmap string string
}.

(** Number of properties of a [patch] object. *)
Definition patch_size (p : patch) : nat :=
  match patch_apiTokens p with
  | Some _ => 1 + size (patch_attributes p)
  | None => size (patch_attributes p)
  end.

(** The state threaded through a request: the stored documents, the log of
    the calls made to [User.update], and the number of values drawn so far
    from [uuid.v4()] and from [Math.random()]. *)
Record world : Type := {
  accounts : gmap string account;
  updates : list (string * patch);
  uuids : nat;
  randoms : nat
}.

(** The oracles: the [i]-th result of [uuid.v4()], the [i]-th value of
    [~~(Math.random() * 1e9)], and whether the storage engine fails on the
    [i]-th call of [User.update].  [Math.random()] lies in [0, 1), hence
    the bound on the truncated product. *)
Record env : Type := {
  uuid_v4 : nat -> string;
  random_1e9 : nat -> N;
  random_range : forall i, (random_1e9 i < 1000000000)%N;
  storage_fails : nat -> bool
}.

(** The world after [k] more calls of [uuid.v4()]. *)
Definition drawn_uuids (k : nat) (w : world) : world :=
  {| accounts := accounts w; updates := updates w;
     uuids := k + uuids w; randoms := randoms w |}.

(** The world after one more call of [Math.random()]. *)
Definition drawn_random (w : world) : world :=
  {| accounts := accounts w; updates := updates w;
     uuids := uuids w; randoms := S (randoms w) |}.

(** The world after a call of [User.update] that changes no document. *)
Definition logged (username : string) (p : patch) (w : world) : world :=
  {| accounts := accounts w;
     updates := (updates w ++ [(username, p)])%list;
     uuids := uuids w; randoms := randoms w |}.

(** The world after a call of [User.update] that stores [user]. *)
Definition stored (username : string) (p : patch) (user : account)
    (w : world) : world :=
  {| accounts := <[username := user]> (accounts w);
     updates := (updates w ++ [(username, p)])%list;
     uuids := uuids w; randoms := randoms w |}.

(** The token map an account shows: [user.apiTokens || {}], and [None]
    when there is no such account. *)
Definition token_map (w : world) (username : string) : option (JS.obj string) :=
  match accounts w !! username with
  | Some user => Some (or_else (apiTokens user) [])
  | None => None
  end.

(** Computations over the world that end in an [outcome]. *)
Definition M (A : Type) : Type := world -> outcome A * world.

Definition ret {A} (a : A) : M A := fun w => (Ok a, w).

Definition fail {A} (e : err) : M A := fun w => (Fail e, w).

Definition throw {A} (x : exn) : M A := fun w => (Throw x, w).

(** Sequencing; [if (err) { return callback(err); }] after every call. *)
Definition bind {A B} (m : M A) (k : A -> M B) : M B :=
  fun w =>
    match m w with
    | (Ok a, w') => k a w'
    | (Fail e, w') => (Fail e, w')
    | (Throw x, w') => (Throw x, w')
    end.

Notation "x <- m ;; k" := (bind m (fun x => k))
  (at level 100, m at next level, right associativity).

(** The object [{apiTokens: o}]. *)
Record wrapped (V : Type) : Type := Wrap { unwrap : JS.obj V }.

Arguments Wrap {V} unwrap.
Arguments unwrap {V} w.

(* ===================================================================== *)
(** * exports.resource: the User resource *)
(* ===================================================================== *)

Module User.

Section WithEnv.

Variable E : env.

(** Modelled from the spec: [User.get] belongs to the storage layer, which
    tokens.js only calls.  It yields the stored document of [username] and
    fails with [NotFound] when there is none. *)
Definition get (username : string) : M account :=
  fun w =>
    match accounts w !! username with
    | Some user => (Ok user, w)
    | None => (Fail NotFound, w)
    end.

(** Merging the given properties into a stored document. *)
Definition merge (user : account) (p : patch) : account :=
  {| apiTokens := match patch_apiTokens p with
                  | Some t => Some t
                  | None => apiTokens user
                  end;
     attributes := patch_attributes p ∪ attributes user |}.

(** Modelled from the spec: [User.update] belongs to the storage layer.  It
    overwrites the given properties of the stored document, fails with
    [NotFound] when there is no document and with [StorageError] when the
    storage engine fails.  Every call is logged in [updates]. *)
Definition update (username : string) (p : patch) : M unit :=
  fun w =>
    match accounts w !! username with
    | None => (Fail NotFound, logged username p w)
    | Some user =>
        if storage_fails E (length (updates w)) then
          (Fail StorageError, logged username p w)
        else (Ok tt, stored username p (merge user p) w)
    end.

(** [uuid.v4()] *)
Definition uuid : M string :=
  fun w => (Ok (uuid_v4 E (uuids w)), drawn_uuids 1 w).

(** [(~~(Math.random() * 1e9)).toString(36)] *)
Definition random_fragment : M string :=
  fun w => (Ok (JS.toString36 (random_1e9 E (randoms w))), drawn_random w).

(** [User.tokens(username, callback)] *)
Definition tokens (username : string) : M (wrapped string) :=
  user <- get username ;;
  let apiTokens := or_else (apiTokens user) [] in
  ret (Wrap apiTokens).

(** The message of the error of [User.deleteToken]. *)
Definition TokenNotFound : err :=
  Error "Can't delete token, it does not exist".

(** [User.deleteToken(username, tokenname, callback)] *)
Definition deleteToken (username tokenname : string) : M unit :=
  user <- get username ;;
  match apiTokens user with
  | None => throw TypeError
  | Some apiTokens =>
      if JS.not (JS.read apiTokens tokenname) then fail TokenNotFound
      else
        let apiTokens := JS.obj_delete apiTokens tokenname in
        update username
          {| patch_apiTokens := Some apiTokens; patch_attributes := ∅ |}
  end.

(** The loop [for (var key in apiTokens)] of [User.addToken]: the body
    runs once for each key and leaves [apiTokens] as it is. *)
Fixpoint detect_collisions (keys : list string) (apiTokens : tokmap)
    (token : string) : M string :=
  match keys with
  | [] => ret token
  | key :: rest =>
      if JS.strict_eq (JS.read apiTokens key) token then
        token' <- uuid ;;
        detect_collisions rest apiTokens token'
      else detect_collisions rest apiTokens token
  end.

(** [User.addToken(username, tokenname, callback)]; [tokenname] is [None]
    when the continuation is given as second argument. *)
Definition addToken (username : string) (tokenname : option string)
    : M (JS.obj string) :=
  tokenname <- match tokenname with
               | Some name => ret name
               | None =>
                   fragment <- random_fragment ;;
                   ret ("gen_" +:+ fragment)
               end ;;
  token <- uuid ;;
  user <- get username ;;
  let apiTokens := or_else (apiTokens user) [] in
  token <- detect_collisions (JS.obj_keys apiTokens) apiTokens token ;;
  let newToken : JS.obj string := [] in
  let newToken :=
    if String.eqb (JS.typeof (JS.read apiTokens tokenname)) "string"
    then JS.obj_set newToken "operation" "update"
    else JS.obj_set newToken "operation" "insert" in
  let apiTokens := JS.obj_set apiTokens tokenname token in
  _ <- update username
         {| patch_apiTokens := Some apiTokens; patch_attributes := ∅ |} ;;
  let newToken := JS.obj_set newToken tokenname token in
  ret newToken.

End WithEnv.

End User.

(* ===================================================================== *)
(** * exports.routes: /users/:username/tokens *)
(* ===================================================================== *)

(** [this.req.user.authMethod] *)
Record authMethod : Type := {
  method : string;
  id : string
}.

(** The bodies given to [res.json]. *)
Inductive body : Type :=
  | BodyErr (e : err)
  | BodyTokens (tokens : wrapped string)
  | BodyFiltered (filteredTokens : wrapped JS.value)
  | BodyDeleted (ok : bool) (id : string)
  | BodyNewToken (newToken : JS.obj string).

(** How a route handler ends: [res.json(status, body)], or an exception
    that nothing catches. *)
Inductive reply : Type :=
  | Json (status : nat) (b : body)
  | Uncaught (x : exn).

Module Routes.

Section WithEnv.

Variable E : env.

(** GET /users/:username/tokens *)
Definition get (username : string) (authMethod : authMethod)
    : world -> reply * world :=
  fun w =>
    let '(result, w') := User.tokens username w in
    if negb (String.eqb (method authMethod) "username/password") then
      match result with
      | Ok tokens =>
          let filteredTokens : JS.obj JS.value := [] in
          let idFromAuth := id authMethod in
          let filteredTokens :=
            JS.obj_set filteredTokens idFromAuth
              (JS.read (unwrap tokens) idFromAuth) in
          (Json 200 (BodyFiltered (Wrap filteredTokens)), w')
      | Fail _ =>
          (* [tokens] is undefined: reading [tokens.apiTokens] raises *)
          (Uncaught TypeError, w')
      | Throw x => (Uncaught x, w')
      end
    else
      match result with
      | Fail err => (Json 500 (BodyErr err), w')
      | Ok tokens => (Json 200 (BodyTokens tokens), w')
      | Throw x => (Uncaught x, w')
      end.

(** DELETE /users/:username/tokens/:tokenname *)
Definition deleteToken (username tokenname : string)
    : world -> reply * world :=
  fun w =>
    let '(result, w') := User.deleteToken E username tokenname w in
    match result with
    | Throw x => (Uncaught x, w')
    | Fail err => (Json 500 (BodyErr err), w')
    | Ok _ => (Json 201 (BodyDeleted true tokenname), w')
    end.

(** PUT /users/:username/tokens/:tokenname and POST /users/:username/tokens;
    [tokenname] is [None] when the handler receives two arguments. *)
Definition addOrUpdateToken (username : string) (tokenname : option string)
    : world -> reply * world :=
  fun w =>
    let named : M string :=
      match tokenname with
      | Some name => ret name
      | None =>
          fragment <- User.random_fragment E ;;
          ret ("token_" +:+ fragment)
      end in
    let '(result, w') :=
      (tokenname <- named ;; User.addToken E username (Some tokenname)) w in
    match result with
    | Throw x => (Uncaught x, w')
    | Fail err => (Json 500 (BodyErr err), w')
    | Ok newToken => (Json 201 (BodyNewToken newToken), w')
    end.

End WithEnv.

End Routes.

(* ===================================================================== *)
(** * Vocabulary of the statements *)
(* ===================================================================== *)

(** [ds] is the base-36 numeral of [n]: it is read back as [n], and it has
    no more digits than needed. *)
Definition numeral36 (ds : string) (n : N) : Prop :=
  (∀ acc, JS.parse36_aux ds acc
            = Some (acc * 36 ^ N.of_nat (String.length ds) + n)%N) ∧
  (String.length ds = 1 ∨ (36 ^ (N.of_nat (String.length ds) - 1) <= n)%N).

(** The keys a scan has visited when it is described by [segments]: each
    segment is a run of keys passed over, followed by the key that
    matched. *)
Definition visited (segments : list (list string * string)) : list string :=
  concat (map (λ segment, fst segment ++ [snd segment])%list segments).

(** The value the collision loop ends with after [n] redraws. *)
Definition accepted (E : env) (token : string) (w : world) (n : nat) : string :=
  match n with
  | 0 => token
  | S k => uuid_v4 E (uuids w + k)
  end.

(** The operation kind written to [newToken.operation]. *)
Definition operation (apiTokens : tokmap) (tokenname : string) : string :=
  if String.eqb (JS.typeof (JS.read apiTokens tokenname)) "string"
  then "update" else "insert".

(** The patch [{ apiTokens: apiTokens }]. *)
Definition only_tokens (apiTokens : tokmap) : patch :=
  {| patch_apiTokens := Some apiTokens; patch_attributes := ∅ |}.

(** The name [User.addToken] works with: the given one, or a generated
    one. *)
Definition name_of (E : env) (tokenname : option string) (w : world) : string :=
  match tokenname with
  | Some name => name
  | None => "gen_" +:+ JS.toString36 (random_1e9 E (randoms w))
  end.

(** The world once the name is known. *)
Definition named (tokenname : option string) (w : world) : world :=
  match tokenname with
  | Some _ => w
  | None => drawn_random w
  end.

(** [w'] differs from [w] at most in the token map of [username]. *)
Definition same_elsewhere (username : string) (w w' : world) : Prop :=
  (∀ other, other ≠ username → accounts w' !! other = accounts w !! other) ∧
  attributes <$> accounts w' !! username = attributes <$> accounts w !! username.

(* ===================================================================== *)
(** * Scenarios *)
(* ===================================================================== *)

Module Scenario.

Definition uuid_a : string := "110ec58a-a0f2-4ac4-8393-c866d813b8d1".
Definition uuid_b : string := "7c9e6679-7425-40de-944b-e07fc1f90ae7".
Definition uuid_c : string := "f47ac10b-58cc-4372-a567-0e02b2c3d479".

(** A generator that never repeats within its first draws, and a storage
    engine that never fails. *)
Definition calm : env :=
  {| uuid_v4 := fun i => match i with
                         | 0 => uuid_a
                         | 1 => uuid_b
                         | _ => uuid_c
                         end;
     random_1e9 := fun _ => 123456789%N;
     random_range := fun _ => eq_refl;
     storage_fails := fun _ => false |}.

(** A generator whose third and fourth draws repeat the second and the
    first. *)
Definition colliding : env :=
  {| uuid_v4 := fun i => match i with
                         | 0 => uuid_a
                         | 1 => uuid_b
                         | 2 => uuid_b
                         | _ => uuid_a
                         end;
     random_1e9 := fun _ => 123456789%N;
     random_range := fun _ => eq_refl;
     storage_fails := fun _ => false |}.

(** A storage engine that fails on every write. *)
Definition failing : env :=
  {| uuid_v4 := fun _ => uuid_c;
     random_1e9 := fun _ => 123456789%N;
     random_range := fun _ => eq_refl;
     storage_fails := fun _ => true |}.

(** An account created without tokens. *)
Definition charlie : account :=
  {| apiTokens := None;
     attributes := {[ "email" := "foo@bar.com" ]} |}.

(** An account holding two tokens. *)
Definition juan : account :=
  {| apiTokens := Some [("ci-pipeline", uuid_a); ("laptop", uuid_b)];
     attributes := {[ "email" := "foo@bar.com" ]} |}.

Definition couch : world :=
  {| accounts := {[ "charlie" := charlie; "juan" := juan ]};
     updates := [];
     uuids := 0;
     randoms := 0 |}.

(** Three tokens added one after the other to the account without
    tokens, with the generator that repeats itself. *)
Definition added_a : world :=
  snd (User.addToken colliding "charlie" (Some "a") couch).

Definition added_b : world :=
  snd (User.addToken colliding "charlie" (Some "b") added_a).

Definition added_c : world :=
  snd (User.addToken colliding "charlie" (Some "c") added_b).

(** A token named ["operation"], and one named ["k"], added to the
    account without tokens. *)
Definition added_operation : world :=
  snd (User.addToken calm "charlie" (Some "operation") couch).

Definition added_k : world :=
  snd (User.addToken calm "charlie" (Some "k") couch).

(** A token added without a name to the account without tokens, and the
    document stored by that call. *)
Definition added_generated : world :=
  snd (User.addToken calm "charlie" None couch).

Definition charlie_generated : account :=
  {| apiTokens := Some [("gen_21i3v9", uuid_a)];
     attributes := {[ "email" := "foo@bar.com" ]} |}.

(** A token named ["k1"] and then one named ["__proto__"], added to the
    account without tokens. *)
Definition added_k1 : world :=
  snd (User.addToken calm "charlie" (Some "k1") couch).

Definition added_proto : world :=
  snd (User.addToken calm "charlie" (Some "__proto__") added_k1).

Definition by_token (name : string) : authMethod :=
  {| method := "token"; id := name |}.

Definition by_password : authMethod :=
  {| method := "username/password"; id := "" |}.

End Scenario.

(* ===================================================================== *)
(** * Facts about objects *)
(* ===================================================================== *)

Section ObjectFacts.

Context {V : Type}.
Implicit Types (o pre post : JS.obj V) (k : string) (v : V).

(** An own property is defined exactly on the keys of the object. *)
Lemma obj_get_None o k : JS.obj_get o k = None ↔ k ∉ JS.obj_keys o.
Proof.
  unfold JS.obj_keys.
  induction o as [|[k' v'] o IH]; simpl.
  - split; [intros _; apply not_elem_of_nil | done].
  - rewrite not_elem_of_cons.
    destruct (String.eqb k' k) eqn:Hk.
    + apply String.eqb_eq in Hk as ->. split; [done | by intros [? _]].
    + apply String.eqb_neq in Hk. rewrite IH. split; [done | by intros [_ ?]].
Qed.

Lemma obj_get_is_Some o k : is_Some (JS.obj_get o k) ↔ k ∈ JS.obj_keys o.
Proof.
  rewrite <- not_eq_None_Some, obj_get_None.
  destruct (decide (k ∈ JS.obj_keys o)); naive_solver.
Qed.

Lemma obj_get_app pre post k :
  JS.obj_get (pre ++ post) k =
    match JS.obj_get pre k with
    | Some v => Some v
    | None => JS.obj_get post k
    end.
Proof.
  induction pre as [|[k' v'] pre IH]; simpl; [done|].
  by destruct (String.eqb k' k).
Qed.

Lemma obj_get_delete_eq o k : JS.obj_get (JS.obj_delete o k) k = None.
Proof.
  induction o as [|[k' v'] o IH]; simpl; [done|].
  destruct (String.eqb k' k) eqn:Hk; simpl; [done|]. by rewrite Hk.
Qed.

Lemma obj_get_delete_ne o k k' :
  k ≠ k' → JS.obj_get (JS.obj_delete o k) k' = JS.obj_get o k'.
Proof.
  intros Hne. apply String.eqb_neq in Hne.
  induction o as [|[k0 v0] o IH]; simpl; [done|].
  destruct (String.eqb k0 k) eqn:Hk; simpl.
  - apply String.eqb_eq in Hk as ->. by rewrite Hne.
  - by rewrite IH.
Qed.

Lemma obj_delete_notin o k : k ∉ JS.obj_keys o → JS.obj_delete o k = o.
Proof.
  unfold JS.obj_keys. induction o as [|[k' v'] o IH]; [done|].
  cbn [map fst]. rewrite not_elem_of_cons. intros [Hne Hk].
  apply not_eq_sym, String.eqb_neq in Hne.
  cbn [JS.obj_delete]. rewrite Hne. by rewrite IH.
Qed.

Lemma obj_delete_app pre post k :
  JS.obj_delete (pre ++ post) k
    = (JS.obj_delete pre k ++ JS.obj_delete post k)%list.
Proof.
  induction pre as [|[k' v'] pre IH]; simpl; [done|].
  destruct (String.eqb k' k); [done|]. simpl. by rewrite IH.
Qed.

(** ** Overwriting an own property *)

Lemma obj_get_replace_eq o k v :
  is_Some (JS.obj_get o k) → JS.obj_get (JS.obj_replace o k v) k = Some v.
Proof.
  induction o as [|[k' v'] o IH]; simpl; [by intros []|].
  destruct (String.eqb k' k) eqn:Hk; simpl.
  - by rewrite String.eqb_refl.
  - by rewrite Hk.
Qed.

Lemma obj_get_replace_ne o k k' v :
  k ≠ k' → JS.obj_get (JS.obj_replace o k v) k' = JS.obj_get o k'.
Proof.
  intros Hne. apply String.eqb_neq in Hne.
  induction o as [|[k0 v0] o IH]; simpl; [done|].
  destruct (String.eqb k0 k) eqn:Hk; simpl.
  - apply String.eqb_eq in Hk as ->. by rewrite Hne.
  - by rewrite IH.
Qed.

Lemma obj_keys_replace o k v :
  JS.obj_keys (JS.obj_replace o k v) = JS.obj_keys o.
Proof.
  unfold JS.obj_keys. induction o as [|[k' v'] o IH]; simpl; [done|].
  destruct (String.eqb k' k) eqn:Hk; simpl.
  - by apply String.eqb_eq in Hk as ->.
  - by rewrite IH.
Qed.

Lemma obj_count_notin o k : k ∉ JS.obj_keys o → JS.obj_count o k = 0.
Proof.
  unfold JS.obj_count, JS.obj_keys.
  induction o as [|[k' v'] o IH]; [done|].
  cbn [map fst]. rewrite not_elem_of_cons. intros [Hne Hin].
  rewrite filter_cons_False by (simpl; congruence). auto.
Qed.

Lemma obj_count_replace o k v :
  JS.obj_wf o → is_Some (JS.obj_get o k) →
  JS.obj_count (JS.obj_replace o k v) k = 1.
Proof.
  unfold JS.obj_wf. induction o as [|[k' v'] o IH]; intros Hwf Hown.
  - by destruct Hown.
  - unfold JS.obj_keys in Hwf. cbn [map fst] in Hwf.
    apply NoDup_cons in Hwf as [Hnotin Hwf].
    cbn [JS.obj_replace JS.obj_get] in *.
    destruct (String.eqb k' k) eqn:Hk.
    + apply String.eqb_eq in Hk as ->. unfold JS.obj_count.
      rewrite filter_cons_True by done. cbn [length]. f_equal.
      by apply obj_count_notin.
    + apply String.eqb_neq in Hk. unfold JS.obj_count.
      rewrite filter_cons_False by (simpl; congruence). by apply IH.
Qed.

(** ** Adding a property *)

(** A new property goes somewhere into the list, which is otherwise left
    as it is. *)
Lemma obj_insert_split i o k v :
  ∃ pre post, o = (pre ++ post)%list ∧
              JS.obj_insert i o k v = (pre ++ (k, v) :: post)%list.
Proof.
  induction o as [|[k' v'] o IH]; simpl.
  - by exists [], [].
  - destruct (JS.array_index k') as [j|]; [|by exists [], ((k', v') :: o)].
    destruct (j <? i)%N; [|by exists [], ((k', v') :: o)].
    destruct IH as (pre & post & -> & ->).
    by exists ((k', v') :: pre), post.
Qed.

Lemma obj_set_own o k v :
  is_Some (JS.obj_get o k) → JS.obj_set o k v = JS.obj_replace o k v.
Proof. intros [v' Hv']. unfold JS.obj_set. by rewrite Hv'. Qed.

Lemma obj_set_proto o v :
  JS.obj_get o "__proto__" = None → JS.obj_set o "__proto__" v = o.
Proof. intros Hnone. unfold JS.obj_set. by rewrite Hnone. Qed.

Lemma obj_set_new o k v :
  JS.obj_get o k = None → k ≠ "__proto__" →
  ∃ pre post, o = (pre ++ post)%list ∧
              JS.obj_set o k v = (pre ++ (k, v) :: post)%list.
Proof.
  intros Hnone Hk. apply String.eqb_neq in Hk.
  unfold JS.obj_set. rewrite Hnone, Hk.
  destruct (JS.array_index k) as [i|]; [apply obj_insert_split|].
  exists o, []. by rewrite app_nil_r.
Qed.

(** An assignment to the empty object creates its one property. *)
Lemma obj_set_empty k v : k ≠ "__proto__" → JS.obj_set [] k v = [(k, v)].
Proof.
  intros Hk. apply String.eqb_neq in Hk.
  unfold JS.obj_set. simpl. rewrite Hk.
  by destruct (JS.array_index k).
Qed.

(** ** What an assignment changes *)

Lemma obj_get_set_own o k v :
  is_Some (JS.obj_get o k) → JS.obj_get (JS.obj_set o k v) k = Some v.
Proof.
  intros Hown. rewrite obj_set_own by done. by apply obj_get_replace_eq.
Qed.

Lemma obj_get_set_eq o k v :
  k ≠ "__proto__" → JS.obj_get (JS.obj_set o k v) k = Some v.
Proof.
  intros Hk. destruct (JS.obj_get o k) as [v'|] eqn:Hget.
  - apply obj_get_set_own. by eexists.
  - destruct (obj_set_new o k v Hget Hk) as (pre & post & -> & ->).
    rewrite obj_get_app in Hget. rewrite obj_get_app.
    destruct (JS.obj_get pre k); [done|]. simpl. by rewrite String.eqb_refl.
Qed.

Lemma obj_get_set_ne o k k' v :
  k ≠ k' → JS.obj_get (JS.obj_set o k v) k' = JS.obj_get o k'.
Proof.
  intros Hne. destruct (JS.obj_get o k) as [v'|] eqn:Hget.
  - rewrite obj_set_own by (by eexists). by apply obj_get_replace_ne.
  - destruct (decide (k = "__proto__")) as [->|Hk].
    + by rewrite obj_set_proto.
    + destruct (obj_set_new o k v Hget Hk) as (pre & post & -> & ->).
      rewrite !obj_get_app. destruct (JS.obj_get pre k'); [done|].
      simpl. apply String.eqb_neq in Hne. by rewrite Hne.
Qed.

(** Assigning to a name that is not a key adds it to the keys, unless it
    is ["__proto__"]; assigning to a key leaves the keys as they are. *)
Lemma obj_keys_set_own o k v :
  k ∈ JS.obj_keys o → JS.obj_keys (JS.obj_set o k v) = JS.obj_keys o.
Proof.
  intros Hk. apply obj_get_is_Some in Hk.
  rewrite obj_set_own by done. apply obj_keys_replace.
Qed.

Lemma obj_keys_set_new o k v :
  k ∉ JS.obj_keys o → k ≠ "__proto__" →
  JS.obj_keys (JS.obj_set o k v) ≡ₚ k :: JS.obj_keys o.
Proof.
  intros Hnotin Hk. apply obj_get_None in Hnotin.
  destruct (obj_set_new o k v Hnotin Hk) as (pre & post & -> & ->).
  unfold JS.obj_keys. rewrite !map_app. cbn [map fst].
  by rewrite Permutation_middle.
Qed.

Lemma obj_wf_set o k v : JS.obj_wf o → JS.obj_wf (JS.obj_set o k v).
Proof.
  unfold JS.obj_wf. intros Hwf.
  destruct (decide (k ∈ JS.obj_keys o)) as [Hin|Hnotin].
  - by rewrite obj_keys_set_own.
  - destruct (decide (k = "__proto__")) as [->|Hk].
    + apply obj_get_None in Hnotin. by rewrite obj_set_proto.
    + rewrite obj_keys_set_new by done. by apply NoDup_cons.
Qed.

(** After an assignment exactly one property carries the name, unless the
    assignment was ignored. *)
Lemma obj_count_set o k v :
  JS.obj_wf o → k ≠ "__proto__" → JS.obj_count (JS.obj_set o k v) k = 1.
Proof.
  intros Hwf Hk. destruct (JS.obj_get o k) as [v'|] eqn:Hget.
  - rewrite obj_set_own by (by eexists).
    apply obj_count_replace; [done | by eexists].
  - destruct (obj_set_new o k v Hget Hk) as (pre & post & -> & ->).
    apply obj_get_None in Hget. unfold JS.obj_keys in Hget.
    rewrite map_app, not_elem_of_app in Hget. destruct Hget as [Hpre Hpost].
    unfold JS.obj_count. rewrite filter_app, filter_cons_True by done.
    rewrite length_app. cbn [length].
    pose proof (obj_count_notin pre k Hpre) as Hcpre.
    pose proof (obj_count_notin post k Hpost) as Hcpost.
    unfold JS.obj_count in Hcpre, Hcpost. rewrite Hcpre, Hcpost. done.
Qed.

Lemma obj_length_set_own o k v :
  k ∈ JS.obj_keys o → length (JS.obj_set o k v) = length o.
Proof.
  intros Hk. rewrite <- !(length_map fst).
  change (map fst ?x) with (JS.obj_keys x). by rewrite obj_keys_set_own.
Qed.

Lemma obj_length_set_new o k v :
  k ∉ JS.obj_keys o → k ≠ "__proto__" →
  length (JS.obj_set o k v) = S (length o).
Proof.
  intros Hnotin Hk. rewrite <- !(length_map fst).
  change (map fst ?x) with (JS.obj_keys x).
  by rewrite obj_keys_set_new.
Qed.

(** Deleting a property that was just added gives the object back. *)
Lemma obj_delete_set_new o k v :
  k ∉ JS.obj_keys o → JS.obj_delete (JS.obj_set o k v) k = o.
Proof.
  intros Hnotin. destruct (decide (k = "__proto__")) as [->|Hk].
  - rewrite obj_set_proto by (by apply obj_get_None).
    by apply obj_delete_notin.
  - pose proof Hnotin as Hget. apply obj_get_None in Hget.
    destruct (obj_set_new o k v Hget Hk) as (pre & post & -> & ->).
    unfold JS.obj_keys in Hnotin.
    rewrite map_app, not_elem_of_app in Hnotin. destruct Hnotin as [Hpre Hpost].
    rewrite obj_delete_app. cbn [JS.obj_delete]. rewrite String.eqb_refl.
    by rewrite !obj_delete_notin.
Qed.

End ObjectFacts.

(* ===================================================================== *)
(** * Facts about reading a token map *)
(* ===================================================================== *)

Section ReadFacts.

Implicit Types (o : JS.obj string) (k s : string).

Lemma read_own o k s : JS.obj_get o k = Some s → JS.read o k = JS.str s.
Proof. intros Hget. unfold JS.read. by rewrite Hget. Qed.

Lemma read_missing o k :
  JS.obj_get o k = None → k ∉ JS.prototype_names →
  JS.read o k = JS.undefined.
Proof.
  intros Hget Hk. unfold JS.read. rewrite Hget. by rewrite bool_decide_eq_false_2.
Qed.

Lemma read_inherited o k :
  JS.obj_get o k = None → k ∈ JS.prototype_names →
  JS.read o k = JS.builtin k.
Proof.
  intros Hget Hk. unfold JS.read. rewrite Hget. by rewrite bool_decide_eq_true_2.
Qed.

(** [typeof o[k] === "string"] holds exactly of the own properties. *)
Lemma typeof_read_string o k :
  String.eqb (JS.typeof (JS.read o k)) "string" = true
    ↔ is_Some (JS.obj_get o k).
Proof.
  unfold JS.read. destruct (JS.obj_get o k) as [s|]; simpl.
  - split; [by eexists | done].
  - destruct (bool_decide _); simpl.
    + destruct (String.eqb k "__proto__"); split; (done || by intros []).
    + split; (done || by intros []).
Qed.

(** [o[k] === s] holds exactly when [s] is the own property. *)
Lemma strict_eq_read o k s :
  JS.strict_eq (JS.read o k) s = true ↔ JS.obj_get o k = Some s.
Proof.
  unfold JS.read. destruct (JS.obj_get o k) as [s'|]; simpl.
  - rewrite String.eqb_eq. split; congruence.
  - by destruct (bool_decide _).
Qed.

(** [!o[k]] holds when the name is neither a key nor a property of
    [Object.prototype], or when the own property is the empty string. *)
Lemma not_read o k :
  JS.not (JS.read o k) = true
    ↔ (JS.obj_get o k = None ∧ k ∉ JS.prototype_names)
      ∨ JS.obj_get o k = Some "".
Proof.
  unfold JS.read. destruct (JS.obj_get o k) as [s|]; simpl.
  - rewrite String.eqb_eq. split.
    + intros ->. by right.
    + intros [[? _]|[= ->]]; done.
  - destruct (bool_decide (k ∈ JS.prototype_names)) eqn:Hk; simpl.
    + apply bool_decide_eq_true in Hk. split; [done|].
      intros [[_ ?]|?]; done.
    + apply bool_decide_eq_false in Hk. split; [|done]. intros _. by left.
Qed.

End ReadFacts.

(* ===================================================================== *)
(** * Facts about [toString(36)] *)
(* ===================================================================== *)

Section Base36.

Local Open Scope N_scope.

Lemma digit_value_char d : d < 36 → JS.digit_value (JS.digit_char d) = Some d.
Proof.
  intros Hd. destruct d as [|p]; [reflexivity|].
  do 6 (destruct p as [p|p|]; try reflexivity; try lia).
Qed.

Lemma string_app_cons (c : ascii) (s1 s2 : string) :
  String c s1 +:+ s2 = String c (s1 +:+ s2).
Proof. reflexivity. Qed.

Lemma string_app_assoc (s1 s2 s3 : string) :
  (s1 +:+ s2) +:+ s3 = s1 +:+ (s2 +:+ s3).
Proof.
  induction s1 as [|c s1 IH]; [done|].
  by rewrite !string_app_cons, IH.
Qed.

Lemma string_app_nil_r (s : string) : s +:+ "" = s.
Proof.
  induction s as [|c s IH]; [done|]. by rewrite string_app_cons, IH.
Qed.

Lemma string_length_snoc (s : string) (c : ascii) :
  String.length (s +:+ String c "") = S (String.length s).
Proof.
  induction s as [|c' s IH]; [done|].
  rewrite string_app_cons. cbn [String.length]. by rewrite IH.
Qed.

Lemma parse36_aux_app s1 s2 acc :
  JS.parse36_aux (s1 +:+ s2) acc =
    match JS.parse36_aux s1 acc with
    | Some acc' => JS.parse36_aux s2 acc'
    | None => None
    end.
Proof.
  revert acc. induction s1 as [|c s1 IH]; intros acc; [done|].
  rewrite string_app_cons. cbn [JS.parse36_aux].
  destruct (JS.digit_value c); [apply IH | done].
Qed.

Lemma toString36_aux_numeral fuel n acc :
  (0 < fuel)%nat → n < 2 ^ N.of_nat fuel →
  ∃ ds, JS.toString36_aux fuel n acc = ds +:+ acc ∧ numeral36 ds n.
Proof.
  revert n acc. induction fuel as [|fuel IH]; intros n acc Hfuel Hn; [lia|].
  cbn [JS.toString36_aux].
  assert (Hmod : n mod 36 < 36) by (apply N.mod_lt; lia).
  destruct (n / 36 =? 0) eqn:Hq.
  - apply N.eqb_eq in Hq. apply N.div_small_iff in Hq; [|lia].
    exists (String (JS.digit_char (n mod 36)) ""). split; [done|].
    split; [|by left]. intros a. simpl.
    rewrite digit_value_char by done. rewrite N.mod_small by done.
    done.
  - apply N.eqb_neq in Hq.
    assert (Hge : 36 <= n).
    { destruct (N.lt_ge_cases n 36) as [Hlt|]; [|done].
      apply N.div_small in Hlt. done. }
    assert (Hfuel' : (0 < fuel)%nat).
    { destruct fuel; [|lia]. change (2 ^ N.of_nat 1) with 2 in Hn. lia. }
    assert (Hdiv : n / 36 < 2 ^ N.of_nat fuel).
    { apply N.Div0.div_lt_upper_bound.
      rewrite Nat2N.inj_succ, N.pow_succ_r' in Hn. lia. }
    destruct (IH (n / 36) (String (JS.digit_char (n mod 36)) acc) Hfuel' Hdiv)
      as (ds & Heq & Hparse & Hlen).
    exists (ds +:+ String (JS.digit_char (n mod 36)) ""). split.
    { rewrite Heq. by rewrite string_app_assoc. }
    pose proof (string_length_snoc ds (JS.digit_char (n mod 36))) as Hlen'.
    split.
    + intros a. rewrite parse36_aux_app, Hparse. simpl.
      rewrite digit_value_char by done. f_equal. rewrite Hlen'.
      rewrite Nat2N.inj_succ, N.pow_succ_r'.
      pose proof (N.div_mod n 36 ltac:(lia)) as Hdm. lia.
    + right. rewrite Hlen'. rewrite Nat2N.inj_succ.
      replace (N.succ (N.of_nat (String.length ds)) - 1)
        with (N.of_nat (String.length ds)) by lia.
      pose proof (N.div_mod n 36 ltac:(lia)) as Hdm.
      destruct Hlen as [Hone|Hlen].
      * rewrite Hone. change (36 ^ N.of_nat 1) with 36. done.
      * destruct (String.length ds) as [|len] eqn:Hl.
        { change (36 ^ N.of_nat 0) with 1. lia. }
        rewrite Nat2N.inj_succ, N.pow_succ_r'.
        rewrite Nat2N.inj_succ in Hlen.
        replace (N.succ (N.of_nat len) - 1) with (N.of_nat len) in Hlen by lia.
        clear -Hlen Hdm. revert Hlen Hdm.
        generalize (36 ^ N.of_nat len) (n / 36) (n mod 36). lia.
Qed.

Lemma toString36_numeral n : numeral36 (JS.toString36 n) n.
Proof.
  unfold JS.toString36.
  destruct (toString36_aux_numeral (S (N.to_nat (N.size n))) n "")
    as (ds & Heq & Hnum).
  - lia.
  - rewrite Nat2N.inj_succ, N2Nat.id, N.pow_succ_r'.
    pose proof (N.size_gt n). lia.
  - by rewrite Heq, string_app_nil_r.
Qed.

(** The fragment of an auto-generated name has between one and six
    characters. *)
Lemma toString36_length n :
  n < 1000000000 →
  (1 <= String.length (JS.toString36 n) <= 6)%nat.
Proof.
  intros Hn. destruct (toString36_numeral n) as [Hparse Hlen].
  split.
  - destruct (JS.toString36 n) as [|c s] eqn:Hs; [|simpl; lia].
    specialize (Hparse 1). simpl in Hparse. injection Hparse as Hparse. lia.
  - destruct Hlen as [->|Hlen]; [lia|].
    destruct (le_lt_dec (String.length (JS.toString36 n)) 6) as [|Hgt]; [done|].
    exfalso.
    assert (36 ^ 6 <= 36 ^ (N.of_nat (String.length (JS.toString36 n)) - 1))
      by (apply N.pow_le_mono_r; lia).
    change (36 ^ 6) with 2176782336 in *. lia.
Qed.

(** Every character of the fragment is a base-36 digit. *)
Lemma parse36_aux_digits s acc r :
  JS.parse36_aux s acc = Some r →
  Forall (λ c, is_Some (JS.digit_value c)) (list_ascii_of_string s).
Proof.
  revert acc. induction s as [|c s IH]; intros acc; simpl; [by constructor|].
  destruct (JS.digit_value c) eqn:Hc; [|done].
  intros Hs. constructor; [by eexists | by eapply IH].
Qed.

End Base36.

(* ===================================================================== *)
(** * Facts about the User resource *)
(* ===================================================================== *)

Section ResourceFacts.

Variable E : env.

Lemma drawn_uuids_0 w : drawn_uuids 0 w = w.
Proof. by destruct w. Qed.

Lemma drawn_uuids_add a b w :
  drawn_uuids a (drawn_uuids b w) = drawn_uuids (a + b) w.
Proof. unfold drawn_uuids. simpl. f_equal. lia. Qed.

(** The collision loop always ends.  It redraws [n] times, once at each
    key whose value equals the candidate of the moment: the keys are the
    [n] segments, each a run of keys whose values differ from the
    candidate followed by a key whose value equals it, and then the keys
    [post], whose values all differ from the value the loop ends with. *)
Lemma detect_collisions_run keys (apiTokens : tokmap) token w :
  ∃ n segments post,
    User.detect_collisions E keys apiTokens token w
      = (Ok (accepted E token w n), drawn_uuids n w) ∧
    n = length segments ∧
    keys = (visited segments ++ post)%list ∧
    (∀ j skipped hit, segments !! j = Some (skipped, hit) →
       JS.obj_get apiTokens hit = Some (accepted E token w j) ∧
       Forall (λ key, JS.obj_get apiTokens key ≠ Some (accepted E token w j))
         skipped) ∧
    Forall (λ key, JS.obj_get apiTokens key ≠ Some (accepted E token w n)) post.
Proof.
  revert token w. induction keys as [|key keys IH]; intros token w.
  - exists 0, [], []. rewrite drawn_uuids_0. split_and!; try done.
  - cbn [User.detect_collisions].
    destruct (JS.strict_eq (JS.read apiTokens key) token) eqn:Hkey.
    + apply strict_eq_read in Hkey.
      destruct (IH (uuid_v4 E (uuids w)) (drawn_uuids 1 w))
        as (n & segments & post & Hrun & -> & -> & Hhits & Hpost).
      assert (Hacc : ∀ j, accepted E (uuid_v4 E (uuids w)) (drawn_uuids 1 w) j
                          = accepted E token w (S j)).
      { intros [|j]; simpl; f_equal; lia. }
      exists (S (length segments)), (([], key) :: segments), post.
      rewrite Hacc in Hrun, Hpost.
      split_and!; try done.
      * unfold bind, User.uuid. rewrite Hrun, drawn_uuids_add.
        by replace (length segments + 1) with (S (length segments)) by lia.
      * intros [|j] skipped hit Hj.
        -- injection Hj as <- <-. by split.
        -- rewrite <- Hacc. by apply Hhits.
    + assert (Hne : JS.obj_get apiTokens key ≠ Some token).
      { intros Heq. apply strict_eq_read in Heq. congruence. }
      destruct (IH token w)
        as (n & segments & post & Hrun & -> & -> & Hhits & Hpost).
      destruct segments as [|[skipped hit] segments].
      * exists 0, [], (key :: post). split_and!; try done.
        by constructor.
      * exists (S (length segments)), ((key :: skipped, hit) :: segments), post.
        split_and!; try done.
        intros [|j] skipped' hit' Hj.
        -- injection Hj as <- <-.
           destruct (Hhits 0 skipped hit eq_refl) as [Hhit Hskipped].
           split; [done | by constructor].
        -- by apply (Hhits (S j)).
Qed.

(** A scan of no key makes no redraw. *)
Lemma visited_nil segments post :
  [] = (visited segments ++ post)%list → segments = [].
Proof.
  destruct segments as [|[skipped hit] segments]; [done|].
  unfold visited. simpl. by destruct skipped.
Qed.

(** What [User.update] does on an existing document. *)
Lemma update_run username p w user :
  accounts w !! username = Some user →
  User.update E username p w =
    if storage_fails E (length (updates w))
    then (Fail StorageError, logged username p w)
    else (Ok tt, stored username p (User.merge user p) w).
Proof. intros Huser. unfold User.update. by rewrite Huser. Qed.

(** One call of [User.addToken] on an existing account, up to the call of
    [User.update]. *)
Lemma addToken_run username tokenname w user :
  accounts w !! username = Some user →
  let apiTokens := or_else (apiTokens user) [] in
  ∃ n segments post,
    let token := uuid_v4 E (uuids w + n) in
    User.addToken E username (Some tokenname) w
      = (_ <- User.update E username
                (only_tokens (JS.obj_set apiTokens tokenname token)) ;;
         ret (JS.obj_set [("operation", operation apiTokens tokenname)]
                tokenname token))
          (drawn_uuids (S n) w) ∧
    n = length segments ∧
    JS.obj_keys apiTokens = (visited segments ++ post)%list ∧
    (∀ j skipped hit, segments !! j = Some (skipped, hit) →
       JS.obj_get apiTokens hit = Some (uuid_v4 E (uuids w + j)) ∧
       Forall (λ key, JS.obj_get apiTokens key ≠ Some (uuid_v4 E (uuids w + j)))
         skipped) ∧
    Forall (λ key, JS.obj_get apiTokens key ≠ Some token) post.
Proof.
  intros Huser apiTokens.
  destruct (detect_collisions_run (JS.obj_keys apiTokens) apiTokens
              (uuid_v4 E (uuids w)) (drawn_uuids 1 w))
    as (n & segments & post & Hrun & Hn & Hkeys & Hhits & Hpost).
  assert (Hacc : ∀ j, accepted E (uuid_v4 E (uuids w)) (drawn_uuids 1 w) j
                      = uuid_v4 E (uuids w + j)).
  { intros [|j]; simpl; f_equal; lia. }
  rewrite Hacc in Hrun, Hpost. rewrite drawn_uuids_add in Hrun.
  replace (n + 1) with (S n) in Hrun by lia.
  exists n, segments, post. split_and!; try done.
  - unfold User.addToken, bind at 1 2 3 4, ret at 1, User.uuid at 1, User.get.
    cbn [accounts drawn_uuids]. rewrite Huser.
    fold apiTokens. rewrite Hrun. unfold operation, only_tokens.
    by destruct (String.eqb (JS.typeof (JS.read apiTokens tokenname)) "string").
  - intros j skipped hit Hj. rewrite <- Hacc. by apply Hhits.
Qed.

(** A call without a name is a call with the generated name. *)
Lemma addToken_generated username w :
  User.addToken E username None w
    = User.addToken E username (Some (name_of E None w)) (drawn_random w).
Proof. reflexivity. Qed.

(** One whole call of [User.addToken] on an existing account. *)
Lemma addToken_full_run username tokenname w user :
  accounts w !! username = Some user →
  let apiTokens := or_else (apiTokens user) [] in
  let name := name_of E tokenname w in
  ∃ n segments post,
    let token := uuid_v4 E (uuids w + n) in
    let p := only_tokens (JS.obj_set apiTokens name token) in
    let w1 := drawn_uuids (S n) (named tokenname w) in
    User.addToken E username tokenname w
      = (if storage_fails E (length (updates w))
         then (Fail StorageError, logged username p w1)
         else (Ok (JS.obj_set [("operation", operation apiTokens name)]
                     name token),
               stored username p (User.merge user p) w1)) ∧
    n = length segments ∧
    JS.obj_keys apiTokens = (visited segments ++ post)%list ∧
    (∀ j skipped hit, segments !! j = Some (skipped, hit) →
       JS.obj_get apiTokens hit = Some (uuid_v4 E (uuids w + j)) ∧
       Forall (λ key, JS.obj_get apiTokens key ≠ Some (uuid_v4 E (uuids w + j)))
         skipped) ∧
    Forall (λ key, JS.obj_get apiTokens key ≠ Some token) post.
Proof.
  intros Huser apiTokens name.
  assert (Hnamed : User.addToken E username tokenname w
                   = User.addToken E username (Some name) (named tokenname w)).
  { by destruct tokenname. }
  assert (Huser' : accounts (named tokenname w) !! username = Some user).
  { by destruct tokenname. }
  destruct (addToken_run username name _ _ Huser')
    as (n & segments & post & Hrun & Hrest).
  assert (Huuids : uuids (named tokenname w) = uuids w) by by destruct tokenname.
  rewrite Huuids in Hrun, Hrest.
  exists n, segments, post. split; [|exact Hrest].
  rewrite Hnamed, Hrun. unfold bind.
  rewrite (update_run _ _ _ user) by (by destruct tokenname).
  assert (Hlog : updates (drawn_uuids (S n) (named tokenname w)) = updates w)
    by by destruct tokenname.
  rewrite Hlog.
  by destruct (storage_fails E (length (updates w))).
Qed.

(** One whole call of [User.deleteToken] on an existing account. *)
Lemma deleteToken_full_run username tokenname w user :
  accounts w !! username = Some user →
  User.deleteToken E username tokenname w =
    match apiTokens user with
    | None => (Throw TypeError, w)
    | Some apiTokens =>
        if JS.not (JS.read apiTokens tokenname)
        then (Fail User.TokenNotFound, w)
        else
          let p := only_tokens (JS.obj_delete apiTokens tokenname) in
          if storage_fails E (length (updates w))
          then (Fail StorageError, logged username p w)
          else (Ok tt, stored username p (User.merge user p) w)
    end.
Proof.
  intros Huser. unfold User.deleteToken, bind, User.get. rewrite Huser.
  destruct (apiTokens user) as [apiTokens|]; [|done].
  destruct (JS.not (JS.read apiTokens tokenname)); [done|].
  by rewrite (update_run _ _ _ user).
Qed.

(** Without a document every operation fails with the error of
    [User.get] and leaves the world as it is, but for the draws made. *)
Lemma tokens_no_account username w :
  accounts w !! username = None → User.tokens username w = (Fail NotFound, w).
Proof. intros Hnone. unfold User.tokens, bind, User.get. by rewrite Hnone. Qed.

Lemma deleteToken_no_account username tokenname w :
  accounts w !! username = None →
  User.deleteToken E username tokenname w = (Fail NotFound, w).
Proof. intros Hnone. unfold User.deleteToken, bind, User.get. by rewrite Hnone. Qed.

Lemma addToken_no_account username tokenname w :
  accounts w !! username = None →
  User.addToken E username tokenname w
    = (Fail NotFound, drawn_uuids 1 (named tokenname w)).
Proof.
  intros Hnone. destruct tokenname as [name|];
    unfold User.addToken, bind, User.get; simpl; by rewrite Hnone.
Qed.

(** The stored document after a successful write. *)
Lemma token_map_stored username p user w m :
  patch_apiTokens p = Some m →
  token_map (stored username p (User.merge user p) w) username = Some m.
Proof.
  intros Hp. unfold token_map, stored. simpl.
  rewrite lookup_insert_eq. simpl. by rewrite Hp.
Qed.

Lemma same_elsewhere_stored username user m w w1 :
  accounts w !! username = Some user →
  accounts w1 = accounts w →
  same_elsewhere username w
    (stored username (only_tokens m) (User.merge user (only_tokens m)) w1).
Proof.
  intros Huser Hacc. split; simpl; rewrite Hacc.
  - intros other Hother. by rewrite lookup_insert_ne.
  - rewrite lookup_insert_eq, Huser. simpl. f_equal. apply (left_id_L ∅ (∪)).
Qed.

Lemma same_elsewhere_accounts username w w' :
  accounts w' = accounts w → same_elsewhere username w w'.
Proof. intros Hacc. split; by rewrite Hacc. Qed.

End ResourceFacts.

(* ===================================================================== *)
(** * Listing *)
(* ===================================================================== *)

(** C7: [User.tokens] fails with [NotFound] exactly when there is no
    account of that name, and with no other error; on an existing account
    it yields the account's token map, the empty map when the account has
    none yet; the world, and so the log of storage writes, is left as it
    was. *)
Theorem tokens_lists_account (w : world) (username : string) :
  (fst (User.tokens username w) = Fail NotFound
     ↔ accounts w !! username = None) ∧
  (∀ e, fst (User.tokens username w) = Fail e →
     e = NotFound ∧ accounts w !! username = None) ∧
  (∀ user, accounts w !! username = Some user →
     fst (User.tokens username w) = Ok (Wrap (or_else (apiTokens user) [])) ∧
     (apiTokens user = None → fst (User.tokens username w) = Ok (Wrap []))) ∧
  snd (User.tokens username w) = w ∧
  updates (snd (User.tokens username w)) = updates w.
Proof.
  unfold User.tokens, bind, User.get, ret.
  destruct (accounts w !! username) as [user|] eqn:Huser; simpl.
  - split_and!; try done.
    intros user' [= <-]. split; [done|]. by intros ->.
  - split_and!; try done. by intros e [= <-].
Qed.

Lemma tokens_lists_account_witness :
  accounts Scenario.couch !! "charlie" = Some Scenario.charlie ∧
  fst (User.tokens "charlie" Scenario.couch) = Ok (Wrap []) ∧
  snd (User.tokens "charlie" Scenario.couch) = Scenario.couch.
Proof.
  destruct (tokens_lists_account Scenario.couch "charlie")
    as (_ & _ & Hsome & Hsame & _).
  split; [reflexivity|]. split; [|exact Hsame].
  apply (Hsome Scenario.charlie); reflexivity.
Defined.

(** C2: the caller's name is read from the token map as JavaScript reads
    a property of an object.  The account holds two tokens, none named
    ["constructor"]: a caller authenticated by a token of that name is
    answered with the name bound to the function inherited from
    [Object.prototype], not to [undefined].  For the name ["__proto__"]
    the map answered has no entry at all. *)
Theorem get_by_token_reads_the_prototype :
  token_map Scenario.couch "juan"
    = Some [("ci-pipeline", Scenario.uuid_a); ("laptop", Scenario.uuid_b)] ∧
  JS.obj_get [("ci-pipeline", Scenario.uuid_a); ("laptop", Scenario.uuid_b)]
    "constructor" = None ∧
  Routes.get "juan" (Scenario.by_token "constructor") Scenario.couch
    = (Json 200
         (BodyFiltered (Wrap [("constructor", JS.builtin "constructor")])),
       Scenario.couch) ∧
  JS.builtin "constructor" ≠ JS.undefined ∧
  JS.typeof (JS.builtin "constructor") = "function" ∧
  Routes.get "juan" (Scenario.by_token "__proto__") Scenario.couch
    = (Json 200 (BodyFiltered (Wrap [])), Scenario.couch).
Proof. split_and!; try reflexivity. discriminate. Qed.

(** X19: when the caller did not authenticate with username and password,
    the listing of an existing account is answered, and every listing
    answered is, with the object [{id: tokens[id]}].  For a name other
    than ["__proto__"] that is a key of the token map it has exactly one
    property, the name bound to the stored value, however many tokens the
    account holds; for a name that is neither a key nor a property of
    [Object.prototype] it has exactly one property, the name bound to
    [undefined]. *)
Theorem get_filters_by_token (w : world) (username : string)
    (authMethod : authMethod) :
  method authMethod ≠ "username/password" →
  (∀ user, accounts w !! username = Some user →
     Routes.get username authMethod w
       = (Json 200
            (BodyFiltered
               (Wrap (JS.obj_set [] (id authMethod)
                        (JS.read (or_else (apiTokens user) [])
                           (id authMethod))))),
          w)) ∧
  (∀ status b, fst (Routes.get username authMethod w) = Json status b →
     ∃ tokens,
       token_map w username = Some tokens ∧
       status = 200 ∧
       b = BodyFiltered
             (Wrap (JS.obj_set [] (id authMethod)
                      (JS.read tokens (id authMethod)))) ∧
       (∀ value, JS.obj_get tokens (id authMethod) = Some value →
          id authMethod ≠ "__proto__" →
          JS.obj_set [] (id authMethod) (JS.read tokens (id authMethod))
            = [(id authMethod, JS.str value)]) ∧
       (JS.obj_get tokens (id authMethod) = None →
        id authMethod ∉ JS.prototype_names →
        JS.obj_set [] (id authMethod) (JS.read tokens (id authMethod))
          = [(id authMethod, JS.undefined)])).
Proof.
  intros Hmethod. apply String.eqb_neq in Hmethod.
  unfold Routes.get, User.tokens, bind, User.get, ret, token_map.
  destruct (accounts w !! username) as [user|] eqn:Huser; rewrite Hmethod; simpl.
  - split.
    + by intros user' [= <-].
    + intros status b [= <- <-]. eexists. split_and!; try done.
      * intros value Hvalue Hid. rewrite (read_own _ _ _ Hvalue).
        by apply obj_set_empty.
      * intros Hnone Hid. rewrite read_missing by done. apply obj_set_empty.
        intros Heq. apply Hid. rewrite Heq. unfold JS.prototype_names.
        set_solver.
  - split; [done|]. by intros status b.
Qed.

Lemma get_filters_by_token_witness :
  method (Scenario.by_token "laptop") ≠ "username/password" ∧
  accounts Scenario.couch !! "juan" = Some Scenario.juan ∧
  Routes.get "juan" (Scenario.by_token "laptop") Scenario.couch
    = (Json 200
         (BodyFiltered
            (Wrap (JS.obj_set [] (id (Scenario.by_token "laptop"))
                     (JS.read (or_else (apiTokens Scenario.juan) [])
                        (id (Scenario.by_token "laptop")))))),
       Scenario.couch) ∧
  JS.obj_set [] (id (Scenario.by_token "laptop"))
    (JS.read (or_else (apiTokens Scenario.juan) [])
       (id (Scenario.by_token "laptop")))
  = [("laptop", JS.str Scenario.uuid_b)].
Proof.
  assert (Hmethod : method (Scenario.by_token "laptop") ≠ "username/password")
    by discriminate.
  split; [exact Hmethod|]. split; [reflexivity|]. split; [|reflexivity].
  apply (proj1 (get_filters_by_token Scenario.couch "juan"
                  (Scenario.by_token "laptop") Hmethod) Scenario.juan).
  reflexivity.
Defined.

(** A caller whose token is no longer stored is answered with that name
    bound to [undefined]. *)
Example get_revoked_token :
  fst (Routes.get "juan" (Scenario.by_token "revoked") Scenario.couch)
    = Json 200 (BodyFiltered (Wrap [("revoked", JS.undefined)])).
Proof. reflexivity. Qed.

(** With username and password the whole map is returned. *)
Example get_by_password :
  fst (Routes.get "juan" Scenario.by_password Scenario.couch)
    = Json 200 (BodyTokens
                  (Wrap [("ci-pipeline", Scenario.uuid_a);
                         ("laptop", Scenario.uuid_b)])).
Proof. reflexivity. Qed.

(* ===================================================================== *)
(** * Errors *)
(* ===================================================================== *)

Section Errors.

Variable E : env.

(** The three resource functions hand the error of the storage layer to
    their continuation. *)
Lemma resource_surfaces_get_error username tokenname name w :
  accounts w !! username = None →
  fst (User.tokens username w) = Fail NotFound ∧
  fst (User.deleteToken E username tokenname w) = Fail NotFound ∧
  fst (User.addToken E username name w) = Fail NotFound.
Proof.
  intros Hnone.
  by rewrite tokens_no_account, deleteToken_no_account, addToken_no_account.
Qed.

Lemma resource_surfaces_update_error username tokenname name w user :
  accounts w !! username = Some user →
  storage_fails E (length (updates w)) = true →
  fst (User.addToken E username name w) = Fail StorageError ∧
  (∀ tokens, apiTokens user = Some tokens →
     JS.not (JS.read tokens tokenname) = false →
     fst (User.deleteToken E username tokenname w) = Fail StorageError).
Proof.
  intros Huser Hfails. split.
  - destruct (addToken_full_run E username name w user Huser)
      as (n & pre & post & -> & _).
    by rewrite Hfails.
  - intros t Ht Hnot. rewrite (deleteToken_full_run E _ _ _ user Huser).
    by rewrite Ht, Hnot, Hfails.
Qed.

(** The handlers of DELETE, PUT and POST answer 500 with the error they
    receive. *)
Lemma deleteToken_route_surfaces username tokenname w e :
  fst (User.deleteToken E username tokenname w) = Fail e →
  fst (Routes.deleteToken E username tokenname w) = Json 500 (BodyErr e).
Proof.
  unfold Routes.deleteToken.
  destruct (User.deleteToken E username tokenname w) as [[]]; simpl; congruence.
Qed.

Lemma addOrUpdateToken_route_surfaces username tokenname w e :
  fst (User.addToken E username (Some tokenname) w) = Fail e →
  fst (Routes.addOrUpdateToken E username (Some tokenname) w)
    = Json 500 (BodyErr e).
Proof.
  unfold Routes.addOrUpdateToken, bind, ret.
  destruct (User.addToken E username (Some tokenname) w) as [[]]; simpl;
    congruence.
Qed.

(** The handler of GET does so for a caller authenticated by password. *)
Lemma get_route_surfaces username authMethod w e :
  method authMethod = "username/password" →
  fst (User.tokens username w) = Fail e →
  fst (Routes.get username authMethod w) = Json 500 (BodyErr e).
Proof.
  intros Hmethod. apply String.eqb_eq in Hmethod.
  unfold Routes.get. rewrite Hmethod.
  destruct (User.tokens username w) as [[]]; simpl; congruence.
Qed.

(** For any other caller the error is dropped: the handler reads
    [tokens.apiTokens] while [tokens] is undefined. *)
Lemma get_route_drops_error username authMethod w e :
  method authMethod ≠ "username/password" →
  fst (User.tokens username w) = Fail e →
  fst (Routes.get username authMethod w) = Uncaught TypeError.
Proof.
  intros Hmethod. apply String.eqb_neq in Hmethod.
  unfold Routes.get. rewrite Hmethod.
  destruct (User.tokens username w) as [[]]; simpl; congruence.
Qed.

End Errors.

(** C3: a listing requested with a token for an account that does not
    exist.  [User.tokens] hands [NotFound] to the handler; the handler
    answers a caller authenticated by password with status 500 and that
    error, but for a caller authenticated by token it raises a
    [TypeError] and sends no answer. *)
Theorem get_by_token_drops_NotFound :
  accounts Scenario.couch !! "daniel" = None ∧
  User.tokens "daniel" Scenario.couch = (Fail NotFound, Scenario.couch) ∧
  Routes.get "daniel" Scenario.by_password Scenario.couch
    = (Json 500 (BodyErr NotFound), Scenario.couch) ∧
  Routes.get "daniel" (Scenario.by_token "laptop") Scenario.couch
    = (Uncaught TypeError, Scenario.couch).
Proof. repeat split; reflexivity. Qed.

(* ===================================================================== *)
(** * Deleting *)
(* ===================================================================== *)

(** On an account that carries a token map, deleting a name that is
    neither one of its keys nor a property of [Object.prototype] fails
    with the error of [User.deleteToken] and changes nothing: no call of
    [User.update] is made. *)
Lemma deleteToken_missing_token (E : env) (w : world)
    (username tokenname : string) (user : account) (tokens : tokmap) :
  accounts w !! username = Some user →
  apiTokens user = Some tokens →
  tokenname ∉ JS.obj_keys tokens →
  tokenname ∉ JS.prototype_names →
  User.deleteToken E username tokenname w = (Fail User.TokenNotFound, w).
Proof.
  intros Huser Htokens Hkey Hproto. apply obj_get_None in Hkey.
  rewrite (deleteToken_full_run E _ _ _ user Huser), Htokens.
  by rewrite read_missing.
Qed.

(** After a successful deletion the name is gone from the listing. *)
Lemma deleteToken_then_tokens (E : env) (w : world)
    (username tokenname : string) (w' : world) :
  User.deleteToken E username tokenname w = (Ok tt, w') →
  ∃ tokens, User.tokens username w' = (Ok (Wrap tokens), w') ∧
            JS.obj_get tokens tokenname = None.
Proof.
  destruct (accounts w !! username) as [user|] eqn:Huser.
  - rewrite (deleteToken_full_run E _ _ _ user Huser).
    destruct (apiTokens user) as [tokens|]; [|done].
    destruct (JS.not _); [done|].
    destruct (storage_fails _ _); [done|].
    intros [= <-]. exists (JS.obj_delete tokens tokenname).
    split; [|apply obj_get_delete_eq].
    unfold User.tokens, bind, User.get, stored. simpl.
    by rewrite lookup_insert_eq.
  - by rewrite deleteToken_no_account.
Qed.

(** C4: deleting a token of an account whose document has no [apiTokens]
    property.  No name is a key of that account's token map, and the
    listing shows the empty map, yet [User.deleteToken] does not fail with
    its own error: it raises a [TypeError], and the handler of DELETE sends
    no answer.  The stored documents stay as they were. *)
Theorem deleteToken_without_token_map :
  accounts Scenario.couch !! "charlie" = Some Scenario.charlie ∧
  apiTokens Scenario.charlie = None ∧
  User.tokens "charlie" Scenario.couch = (Ok (Wrap []), Scenario.couch) ∧
  User.deleteToken Scenario.calm "charlie" "missing" Scenario.couch
    = (Throw TypeError, Scenario.couch) ∧
  Routes.deleteToken Scenario.calm "charlie" "missing" Scenario.couch
    = (Uncaught TypeError, Scenario.couch).
Proof. repeat split; reflexivity. Qed.

(** C10: [User.deleteToken] raises a [TypeError] exactly on the accounts
    whose document has no [apiTokens] property, where [User.tokens] shows
    the empty map and [User.addToken] never raises; whenever it fails with
    its own error, the document carried a token map and the value read
    from it under the name was falsy. *)
Theorem deleteToken_needs_token_map (E : env) (w : world)
    (username tokenname : string) :
  (fst (User.deleteToken E username tokenname w) = Throw TypeError
     ↔ ∃ user, accounts w !! username = Some user ∧ apiTokens user = None) ∧
  (∀ user, accounts w !! username = Some user → apiTokens user = None →
     User.deleteToken E username tokenname w = (Throw TypeError, w) ∧
     User.tokens username w = (Ok (Wrap []), w) ∧
     (∀ name x, fst (User.addToken E username name w) ≠ Throw x) ∧
     (storage_fails E (length (updates w)) = false →
      fst (User.addToken E username (Some tokenname) w)
        = Ok (JS.obj_set [("operation", "insert")] tokenname
                (uuid_v4 E (uuids w))))) ∧
  (fst (User.deleteToken E username tokenname w) = Fail User.TokenNotFound →
     ∃ user tokens,
       accounts w !! username = Some user ∧
       apiTokens user = Some tokens ∧
       JS.not (JS.read tokens tokenname) = true).
Proof.
  destruct (accounts w !! username) as [user|] eqn:Huser.
  - rewrite (deleteToken_full_run E _ _ _ user Huser).
    split_and!.
    + destruct (apiTokens user) as [tokens|] eqn:Htokens.
      * split.
        -- destruct (JS.not _); [done|]. by destruct (storage_fails _ _).
        -- intros (user' & [= <-] & ?). congruence.
      * split; [|done]. intros _. by exists user.
    + intros user' [= <-] Hnone. rewrite Hnone. split_and!; [done | | |].
      * unfold User.tokens, bind, User.get. by rewrite Huser, Hnone.
      * intros name x.
        destruct (addToken_full_run E username name w user Huser)
          as (n & pre & post & -> & _).
        by destruct (storage_fails _ _).
      * intros Hok.
        destruct (addToken_full_run E username (Some tokenname) w user Huser)
          as (n & segments & post & -> & Hn & Hkeys & _).
        rewrite Hok, Hnone in *. cbn [or_else JS.obj_keys map] in Hkeys.
        apply visited_nil in Hkeys. subst segments n.
        cbn [fst length name_of]. rewrite Nat.add_0_r.
        assert (Hop : operation (or_else None []) tokenname = "insert").
        { unfold operation, JS.read. simpl.
          destruct (bool_decide _); [|done]. simpl.
          by destruct (String.eqb tokenname "__proto__"). }
        by rewrite Hop.
    + destruct (apiTokens user) as [tokens|] eqn:Htokens; [|done].
      destruct (JS.not (JS.read tokens tokenname)) eqn:Hnot.
      * intros _. by exists user, tokens.
      * by destruct (storage_fails _ _).
  - rewrite deleteToken_no_account by done. split_and!; try done.
    split; [done|]. by intros (user & ? & _).
Qed.

Lemma deleteToken_needs_token_map_witness :
  (accounts Scenario.couch !! "charlie" = Some Scenario.charlie ∧
   apiTokens Scenario.charlie = None ∧
   User.deleteToken Scenario.calm "charlie" "ci-pipeline" Scenario.couch
     = (Throw TypeError, Scenario.couch) ∧
   User.tokens "charlie" Scenario.couch = (Ok (Wrap []), Scenario.couch)) ∧
  (fst (User.deleteToken Scenario.calm "juan" "missing" Scenario.couch)
     = Fail User.TokenNotFound ∧
   ∃ user tokens,
     accounts Scenario.couch !! "juan" = Some user ∧
     apiTokens user = Some tokens ∧
     JS.not (JS.read tokens "missing") = true).
Proof.
  split.
  - destruct (deleteToken_needs_token_map Scenario.calm Scenario.couch
                "charlie" "ci-pipeline") as (_ & Habsent & _).
    destruct (Habsent Scenario.charlie) as (Hdel & Hlist & _);
      [reflexivity | reflexivity |].
    split; [reflexivity|]. split; [reflexivity|]. by split.
  - split; [reflexivity|].
    apply (deleteToken_needs_token_map Scenario.calm Scenario.couch
             "juan" "missing").
    reflexivity.
Defined.

(** A stored token is deleted, and only that one. *)
Example deleteToken_laptop :
  fst (User.deleteToken Scenario.calm "juan" "laptop" Scenario.couch) = Ok tt ∧
  token_map
    (snd (User.deleteToken Scenario.calm "juan" "laptop" Scenario.couch))
    "juan"
  = Some [("ci-pipeline", Scenario.uuid_a)] ∧
  fst (Routes.deleteToken Scenario.calm "juan" "laptop" Scenario.couch)
    = Json 201 (BodyDeleted true "laptop") ∧
  fst (Routes.deleteToken Scenario.calm "juan" "missing" Scenario.couch)
    = Json 500 (BodyErr User.TokenNotFound).
Proof. repeat split; reflexivity. Qed.

(* ===================================================================== *)
(** * Adding *)
(* ===================================================================== *)

(** C1, as stated, fails: three tokens are added to an account without
    tokens.  The draw for the third equals the value of the second and is
    replaced by a draw that equals the value of the first; that one is
    accepted, and two stored values are equal. *)
Lemma addToken_stores_equal_values :
  token_map Scenario.added_b "charlie"
    = Some [("a", Scenario.uuid_a); ("b", Scenario.uuid_b)] ∧
  uuid_v4 Scenario.colliding (uuids Scenario.added_b) = Scenario.uuid_b ∧
  uuid_v4 Scenario.colliding (S (uuids Scenario.added_b)) = Scenario.uuid_a ∧
  fst (User.addToken Scenario.colliding "charlie" (Some "c") Scenario.added_b)
    = Ok [("operation", "insert"); ("c", Scenario.uuid_a)] ∧
  token_map Scenario.added_c "charlie"
    = Some [("a", Scenario.uuid_a); ("b", Scenario.uuid_b);
            ("c", Scenario.uuid_a)] ∧
  ¬ NoDup (JS.obj_values [("a", Scenario.uuid_a); ("b", Scenario.uuid_b);
                          ("c", Scenario.uuid_a)]).
Proof.
  split_and!; try reflexivity.
  simpl. rewrite NoDup_cons. intros [Hnotin _]. apply Hnotin.
  apply list_elem_of_further, list_elem_of_here.
Qed.

(** C1, amended: on an existing account [User.addToken] visits the keys
    of the token map once, in enumeration order, with a candidate value:
    the first draw at the start, replaced by a new draw at each key whose
    value equals the candidate of the moment.  So the keys are [n]
    segments, each a run of keys whose values differ from the candidate
    followed by one key whose value equals it, and then the keys [post],
    visited after the last replacement; the value handed to [User.update],
    draw number [n], differs from the value under every key of [post].
    When the first draw equals no stored value there is no replacement,
    and the value handed over is the first draw. *)
Theorem addToken_checks_each_value_once (E : env) (w : world)
    (username : string) (tokenname : option string) (user : account) :
  accounts w !! username = Some user →
  ∃ segments post,
    let tokens := or_else (apiTokens user) [] in
    let candidate := λ j, uuid_v4 E (uuids w + j) in
    let n := length segments in
    let w' := snd (User.addToken E username tokenname w) in
    JS.obj_keys tokens = (visited segments ++ post)%list ∧
    (∀ j skipped hit, segments !! j = Some (skipped, hit) →
       JS.obj_get tokens hit = Some (candidate j) ∧
       Forall (λ key, JS.obj_get tokens key ≠ Some (candidate j)) skipped) ∧
    Forall (λ key, JS.obj_get tokens key ≠ Some (candidate n)) post ∧
    uuids w' = S n + uuids w ∧
    updates w'
      = (updates w ++
         [(username,
           only_tokens
             (JS.obj_set tokens (name_of E tokenname w) (candidate n)))])%list ∧
    (storage_fails E (length (updates w)) = false →
     token_map w' username
       = Some (JS.obj_set tokens (name_of E tokenname w) (candidate n))) ∧
    (Forall (λ key, JS.obj_get tokens key ≠ Some (candidate 0))
       (JS.obj_keys tokens) → segments = []).
Proof.
  intros Huser.
  destruct (addToken_full_run E username tokenname w user Huser)
    as (n & segments & post & Hrun & -> & Hkeys & Hhits & Hpost).
  exists segments, post. cbv zeta in *. rewrite Hrun.
  split_and!; try done.
  - by destruct (storage_fails E (length (updates w))), tokenname.
  - by destruct (storage_fails E (length (updates w))), tokenname.
  - intros ->. cbn [snd]. by apply token_map_stored.
  - intros Hall. destruct segments as [|[skipped hit] segments]; [done|].
    destruct (Hhits 0 skipped hit eq_refl) as [Hhit _].
    rewrite Forall_forall in Hall. exfalso. apply (Hall hit); [|done].
    rewrite Hkeys. unfold visited. cbn [map concat fst snd].
    rewrite !elem_of_app. left. left. right. apply list_elem_of_here.
Qed.

Lemma addToken_checks_each_value_once_witness :
  accounts Scenario.couch !! "juan" = Some Scenario.juan ∧
  ∃ segments post,
    let tokens := or_else (apiTokens Scenario.juan) [] in
    let candidate := λ j, uuid_v4 Scenario.calm (uuids Scenario.couch + j) in
    let n := length segments in
    let w' :=
      snd (User.addToken Scenario.calm "juan" (Some "phone") Scenario.couch) in
    JS.obj_keys tokens = (visited segments ++ post)%list ∧
    (∀ j skipped hit, segments !! j = Some (skipped, hit) →
       JS.obj_get tokens hit = Some (candidate j) ∧
       Forall (λ key, JS.obj_get tokens key ≠ Some (candidate j)) skipped) ∧
    Forall (λ key, JS.obj_get tokens key ≠ Some (candidate n)) post ∧
    uuids w' = S n + uuids Scenario.couch ∧
    updates w'
      = (updates Scenario.couch ++
         [("juan",
           only_tokens
             (JS.obj_set tokens
                (name_of Scenario.calm (Some "phone") Scenario.couch)
                (candidate n)))])%list ∧
    (storage_fails Scenario.calm (length (updates Scenario.couch)) = false →
     token_map w' "juan"
       = Some (JS.obj_set tokens
                 (name_of Scenario.calm (Some "phone") Scenario.couch)
                 (candidate n))) ∧
    (Forall (λ key, JS.obj_get tokens key ≠ Some (candidate 0))
       (JS.obj_keys tokens) → segments = []).
Proof.
  split; [reflexivity|].
  apply (addToken_checks_each_value_once Scenario.calm Scenario.couch
           "juan" (Some "phone") Scenario.juan).
  reflexivity.
Defined.

(** Both stored values collide in turn with the draws of [Scenario.calm];
    the third draw is the one stored. *)
Example addToken_redraws_twice :
  fst (User.addToken Scenario.calm "juan" (Some "phone") Scenario.couch)
    = Ok [("operation", "insert"); ("phone", Scenario.uuid_c)].
Proof. reflexivity. Qed.

(** The operation kind is decided on the token map as it was read. *)
Lemma operation_update (tokens : tokmap) (tokenname : string) :
  operation tokens tokenname = "update" ↔ tokenname ∈ JS.obj_keys tokens.
Proof.
  rewrite <- obj_get_is_Some, <- typeof_read_string. unfold operation.
  by destruct (String.eqb (JS.typeof (JS.read tokens tokenname)) "string").
Qed.

Lemma operation_insert (tokens : tokmap) (tokenname : string) :
  operation tokens tokenname = "insert" ↔ tokenname ∉ JS.obj_keys tokens.
Proof.
  rewrite <- obj_get_is_Some, <- typeof_read_string. unfold operation.
  destruct (String.eqb (JS.typeof (JS.read tokens tokenname)) "string");
    split; (done || by intros []).
Qed.

(** The answer to a call whose name is neither ["operation"] nor
    ["__proto__"] nor an array index lists the kind and then the name. *)
Lemma answer_plain (kind name token : string) :
  name ≠ "operation" → name ≠ "__proto__" → JS.array_index name = None →
  JS.obj_set [("operation", kind)] name token
    = [("operation", kind); (name, token)].
Proof.
  intros Hop Hproto Hindex.
  apply not_eq_sym, String.eqb_neq in Hop. apply String.eqb_neq in Hproto.
  unfold JS.obj_set. cbn [JS.obj_get]. by rewrite Hop, Hproto, Hindex.
Qed.

(** For every name but ["operation"], a successful [User.addToken] answers
    with the kind decided on the map read before the write, and, unless
    the name is ["__proto__"], with the value stored under the name. *)
Lemma addToken_reports_operation (E : env) (w : world)
    (username : string) (tokenname : option string) (user : account) :
  accounts w !! username = Some user →
  storage_fails E (length (updates w)) = false →
  name_of E tokenname w ≠ "operation" →
  ∃ token w',
    let tokens := or_else (apiTokens user) [] in
    let name := name_of E tokenname w in
    let answer := JS.obj_set [("operation", operation tokens name)] name token in
    User.addToken E username tokenname w = (Ok answer, w') ∧
    JS.obj_get answer "operation" = Some (operation tokens name) ∧
    (name ≠ "__proto__" → JS.obj_get answer name = Some token) ∧
    (operation tokens name = "update" ↔ name ∈ JS.obj_keys tokens) ∧
    (operation tokens name = "insert" ↔ name ∉ JS.obj_keys tokens) ∧
    token_map w' username = Some (JS.obj_set tokens name token) ∧
    length (updates w') = S (length (updates w)).
Proof.
  intros Huser Hok Hname.
  destruct (addToken_full_run E username tokenname w user Huser)
    as (n & segments & post & Hrun & _).
  rewrite Hok in Hrun. eexists _, _. cbv zeta. rewrite Hrun.
  split_and!.
  - done.
  - rewrite obj_get_set_ne by done. cbn [JS.obj_get].
    by rewrite String.eqb_refl.
  - intros Hproto. by apply obj_get_set_eq.
  - apply operation_update.
  - apply operation_insert.
  - by apply token_map_stored.
  - simpl. rewrite length_app. simpl.
    destruct tokenname; simpl; lia.
Qed.

(** X8: adding the same name twice, for every name but ["operation"] and
    ["__proto__"]: the second answer reports an update and holds the new
    value under the name, and the account ends with exactly one property
    of that name, holding that value. *)
Lemma addToken_twice_rotates (E : env) (w : world)
    (username k : string) (user : account) :
  accounts w !! username = Some user →
  JS.obj_wf (or_else (apiTokens user) []) →
  storage_fails E (length (updates w)) = false →
  storage_fails E (S (length (updates w))) = false →
  k ≠ "operation" →
  k ≠ "__proto__" →
  ∃ answer1 w1 answer2 value2 w2 tokens,
    User.addToken E username (Some k) w = (Ok answer1, w1) ∧
    User.addToken E username (Some k) w1 = (Ok answer2, w2) ∧
    JS.obj_get answer2 "operation" = Some "update" ∧
    JS.obj_get answer2 k = Some value2 ∧
    token_map w2 username = Some tokens ∧
    JS.obj_get tokens k = Some value2 ∧
    JS.obj_count tokens k = 1.
Proof.
  intros Huser Hwf Hok1 Hok2 Hk Hproto.
  destruct (addToken_reports_operation E w username (Some k) user Huser Hok1 Hk)
    as (value1 & w1 & Hrun1 & _ & _ & _ & _ & Hmap1 & Hlen1).
  cbv zeta in *. cbn [name_of] in *.
  unfold token_map in Hmap1.
  destruct (accounts w1 !! username) as [user1|] eqn:Huser1; [|done].
  injection Hmap1 as Hmap1.
  rewrite <- Hlen1 in Hok2.
  destruct (addToken_reports_operation E w1 username (Some k) user1 Huser1 Hok2 Hk)
    as (value2 & w2 & Hrun2 & Hkind & Hvalue & Hupd & _ & Hmap2 & _).
  cbv zeta in *. cbn [name_of] in *. rewrite Hmap1 in *.
  assert (Hop : operation (JS.obj_set (or_else (apiTokens user) []) k value1) k
                = "update").
  { apply Hupd, obj_get_is_Some. rewrite obj_get_set_eq by done. by eexists. }
  rewrite Hop in Hrun2, Hkind, Hvalue.
  eexists _, w1, _, value2, w2, _.
  split_and!; [done | done | done | by apply Hvalue | done | |].
  - by apply obj_get_set_eq.
  - apply obj_count_set; [by apply obj_wf_set | done].
Qed.

(** C6: a token named ["operation"] is added to an account without tokens.
    The name is not a key of the map read, so the kind decided is
    ["insert"]; the answer, though, has a single property ["operation"]
    and it holds the new token value: writing the token under its name
    has replaced the kind. *)
Theorem addToken_operation_overwritten :
  token_map Scenario.couch "charlie" = Some [] ∧
  operation [] "operation" = "insert" ∧
  User.addToken Scenario.calm "charlie" (Some "operation") Scenario.couch
    = (Ok [("operation", Scenario.uuid_a)], Scenario.added_operation) ∧
  JS.obj_get [("operation", Scenario.uuid_a)] "operation" ≠ Some "insert" ∧
  Routes.addOrUpdateToken Scenario.calm "charlie" (Some "operation")
      Scenario.couch
    = (Json 201 (BodyNewToken [("operation", Scenario.uuid_a)]),
       Scenario.added_operation).
Proof. split_and!; try reflexivity. discriminate. Qed.

(** C5: the token named ["operation"] is added a second time.  The account
    ends with one property of that name holding the value of the second
    answer, but the answer does not report ["update"]: its property
    ["operation"] holds the token value.  With the name ["k"] the second
    answer reports ["update"]. *)
Theorem addToken_twice_operation :
  token_map Scenario.added_operation "charlie"
    = Some [("operation", Scenario.uuid_a)] ∧
  fst (User.addToken Scenario.calm "charlie" (Some "operation")
         Scenario.added_operation)
    = Ok [("operation", Scenario.uuid_b)] ∧
  JS.obj_get [("operation", Scenario.uuid_b)] "operation" ≠ Some "update" ∧
  token_map
    (snd (User.addToken Scenario.calm "charlie" (Some "operation")
            Scenario.added_operation)) "charlie"
    = Some [("operation", Scenario.uuid_b)] ∧
  fst (User.addToken Scenario.calm "charlie" (Some "k") Scenario.added_k)
    = Ok [("operation", "update"); ("k", Scenario.uuid_b)].
Proof. split_and!; try reflexivity. discriminate. Qed.

(** C8: a call without a name works with a generated name: ["gen_"] in
    [User.addToken], ["token_"] in the handler of POST, each followed by
    the base-36 numeral of the random integer, which has between one and
    six digits.  On an existing account, while the storage engine works,
    the generated name is the one the answer carries and the one under
    which the new value is stored.  The two prefixes differ, and so do any
    two names built from them. *)
Theorem generated_names (E : env) (w : world) (username : string)
    (user : account) :
  accounts w !! username = Some user →
  storage_fails E (length (updates w)) = false →
  let fragment := JS.toString36 (random_1e9 E (randoms w)) in
  let tokens := or_else (apiTokens user) [] in
  (∃ token w',
     User.addToken E username None w
       = (Ok [("operation", operation tokens ("gen_" +:+ fragment));
              ("gen_" +:+ fragment, token)], w') ∧
     token_map w' username
       = Some (JS.obj_set tokens ("gen_" +:+ fragment) token) ∧
     JS.obj_get (JS.obj_set tokens ("gen_" +:+ fragment) token)
       ("gen_" +:+ fragment) = Some token) ∧
  (∃ token w',
     Routes.addOrUpdateToken E username None w
       = (Json 201
            (BodyNewToken
               [("operation", operation tokens ("token_" +:+ fragment));
                ("token_" +:+ fragment, token)]), w') ∧
     token_map w' username
       = Some (JS.obj_set tokens ("token_" +:+ fragment) token) ∧
     JS.obj_get (JS.obj_set tokens ("token_" +:+ fragment) token)
       ("token_" +:+ fragment) = Some token) ∧
  User.addToken E username None w
    = User.addToken E username (Some ("gen_" +:+ fragment)) (drawn_random w) ∧
  Routes.addOrUpdateToken E username None w
    = Routes.addOrUpdateToken E username (Some ("token_" +:+ fragment))
        (drawn_random w) ∧
  JS.parse36 fragment = Some (random_1e9 E (randoms w)) ∧
  (1 ≤ String.length fragment ≤ 6)%nat ∧
  Forall (λ c, is_Some (JS.digit_value c)) (list_ascii_of_string fragment) ∧
  "token_" ≠ "gen_" ∧
  (∀ fragment1 fragment2, "gen_" +:+ fragment1 ≠ "token_" +:+ fragment2).
Proof.
  intros Huser Hok fragment tokens.
  pose proof (toString36_numeral (random_1e9 E (randoms w))) as [Hparse _].
  pose proof (toString36_length _ (random_range E (randoms w))) as Hlen.
  fold fragment in Hparse, Hlen.
  split.
  { destruct (addToken_reports_operation E w username None user Huser Hok)
      as (token & w' & Hrun & _ & _ & _ & _ & Hmap & _); [discriminate|].
    cbv zeta in *. cbn [name_of] in *. fold fragment tokens in Hrun, Hmap.
    rewrite answer_plain in Hrun by (discriminate || reflexivity).
    exists token, w'. split_and!; [done | done |].
    apply obj_get_set_eq. discriminate. }
  split.
  { destruct (addToken_reports_operation E (drawn_random w) username
                (Some ("token_" +:+ fragment)) user Huser Hok)
      as (token & w' & Hrun & _ & _ & _ & _ & Hmap & _); [discriminate|].
    cbv zeta in *. cbn [name_of] in *. fold tokens in Hrun, Hmap.
    rewrite answer_plain in Hrun by (discriminate || reflexivity).
    exists token, w'. split_and!; [| done |].
    - unfold Routes.addOrUpdateToken, bind, ret, User.random_fragment.
      fold fragment. by rewrite Hrun.
    - apply obj_get_set_eq. discriminate. }
  split; [reflexivity|]. split; [reflexivity|]. split.
  { unfold JS.parse36. destruct fragment as [|c rest] eqn:Hfragment.
    - simpl in Hlen. lia.
    - by rewrite Hparse. }
  split; [exact Hlen|]. split; [exact (parse36_aux_digits _ _ _ (Hparse 0%N))|].
  split; [discriminate|]. intros fragment1 fragment2. discriminate.
Qed.

Lemma generated_names_witness :
  accounts Scenario.couch !! "charlie" = Some Scenario.charlie ∧
  storage_fails Scenario.calm (length (updates Scenario.couch)) = false ∧
  User.addToken Scenario.calm "charlie" None Scenario.couch
    = (Ok [("operation", "insert"); ("gen_21i3v9", Scenario.uuid_a)],
       Scenario.added_generated) ∧
  ∃ token w',
    Routes.addOrUpdateToken Scenario.calm "charlie" None Scenario.couch
      = (Json 201
           (BodyNewToken
              [("operation",
                operation (or_else (apiTokens Scenario.charlie) [])
                  ("token_" +:+
                   JS.toString36
                     (random_1e9 Scenario.calm (randoms Scenario.couch))));
               ("token_" +:+
                JS.toString36
                  (random_1e9 Scenario.calm (randoms Scenario.couch)),
                token)]), w') ∧
    token_map w' "charlie"
      = Some (JS.obj_set (or_else (apiTokens Scenario.charlie) [])
                ("token_" +:+
                 JS.toString36
                   (random_1e9 Scenario.calm (randoms Scenario.couch)))
                token) ∧
    JS.obj_get
      (JS.obj_set (or_else (apiTokens Scenario.charlie) [])
         ("token_" +:+
          JS.toString36 (random_1e9 Scenario.calm (randoms Scenario.couch)))
         token)
      ("token_" +:+
       JS.toString36 (random_1e9 Scenario.calm (randoms Scenario.couch)))
    = Some token.
Proof.
  split; [reflexivity|]. split; [reflexivity|]. split; [reflexivity|].
  destruct (generated_names Scenario.calm Scenario.couch "charlie"
              Scenario.charlie) as (_ & Hroute & _);
    [reflexivity | reflexivity |].
  exact Hroute.
Defined.

(** The numeral of the largest random integer has six digits. *)
Example toString36_demo :
  JS.toString36 999999999 = "gjdgxr" ∧ JS.toString36 0 = "0" ∧
  JS.toString36 35 = "z" ∧ JS.toString36 36 = "10".
Proof. repeat split; reflexivity. Qed.

Example generated_names_demo :
  fst (User.addToken Scenario.calm "charlie" None Scenario.couch)
    = Ok [("operation", "insert"); ("gen_21i3v9", Scenario.uuid_a)] ∧
  fst (Routes.addOrUpdateToken Scenario.calm "charlie" None Scenario.couch)
    = Json 201
        (BodyNewToken
           [("operation", "insert"); ("token_21i3v9", Scenario.uuid_a)]).
Proof. split; reflexivity. Qed.

(* ===================================================================== *)
(** * What is written *)
(* ===================================================================== *)

(** Closes the conjuncts that say what a call left untouched. *)
Ltac frame_goals :=
  split_and!; try done;
  first [ by left
        | by right
        | by apply same_elsewhere_accounts
        | by apply same_elsewhere_stored
        | by (intros _; apply token_map_stored) ].

Lemma patch_size_only_tokens (tokens : tokmap) :
  patch_size (only_tokens tokens) = 1.
Proof. unfold patch_size, only_tokens. simpl. by rewrite map_size_empty. Qed.

(** C9: a token named ["k1"] and then a token named ["__proto__"] are
    added to an account without tokens.  The second call succeeds, and
    the handler answers 201, but the assignment of the value under that
    name is ignored: the answer carries the kind alone, [User.update]
    receives the map as it was, and the account ends with the key ["k1"]
    only. *)
Theorem addToken_proto_is_not_stored :
  token_map Scenario.added_k1 "charlie" = Some [("k1", Scenario.uuid_a)] ∧
  User.addToken Scenario.calm "charlie" (Some "__proto__") Scenario.added_k1
    = (Ok [("operation", "insert")], Scenario.added_proto) ∧
  Routes.addOrUpdateToken Scenario.calm "charlie" (Some "__proto__")
      Scenario.added_k1
    = (Json 201 (BodyNewToken [("operation", "insert")]),
       Scenario.added_proto) ∧
  last (updates Scenario.added_proto)
    = Some ("charlie", only_tokens [("k1", Scenario.uuid_a)]) ∧
  token_map Scenario.added_proto "charlie"
    = Some [("k1", Scenario.uuid_a)] ∧
  JS.obj_keys [("k1", Scenario.uuid_a)] = ["k1"].
Proof. split_and!; reflexivity. Qed.

(** X18: on an existing account, [User.addToken] calls [User.update] once
    and [User.deleteToken] at most once, each time with an object of one
    property, the whole new token map.  That map agrees with the map read
    on every name but the one added or deleted; no other property of the
    document and no other document changes.  After two successful
    additions under names other than ["__proto__"] both names are keys of
    the stored map, and the other properties of the map hold what they
    held. *)
Theorem writes_only_the_token_map (E : env) (w : world)
    (username : string) (user : account) :
  accounts w !! username = Some user →
  let tokens := or_else (apiTokens user) [] in
  (∀ tokenname, ∃ token,
     let name := name_of E tokenname w in
     let w' := snd (User.addToken E username tokenname w) in
     let p := only_tokens (JS.obj_set tokens name token) in
     updates w' = (updates w ++ [(username, p)])%list ∧
     patch_size p = 1 ∧
     (name ≠ "__proto__" →
      JS.obj_get (JS.obj_set tokens name token) name = Some token) ∧
     (∀ k, k ≠ name →
        JS.obj_get (JS.obj_set tokens name token) k = JS.obj_get tokens k) ∧
     same_elsewhere username w w' ∧
     (storage_fails E (length (updates w)) = false →
      token_map w' username = Some (JS.obj_set tokens name token)) ∧
     (storage_fails E (length (updates w)) = true →
      accounts w' = accounts w)) ∧
  (∀ tokenname,
     let w' := snd (User.deleteToken E username tokenname w) in
     let p := only_tokens (JS.obj_delete tokens tokenname) in
     (w' = w ∨ updates w' = (updates w ++ [(username, p)])%list) ∧
     patch_size p = 1 ∧
     (∀ k, k ≠ tokenname →
        JS.obj_get (JS.obj_delete tokens tokenname) k = JS.obj_get tokens k) ∧
     same_elsewhere username w w' ∧
     (fst (User.deleteToken E username tokenname w) = Ok tt →
      token_map w' username = Some (JS.obj_delete tokens tokenname)) ∧
     (fst (User.deleteToken E username tokenname w) ≠ Ok tt →
      accounts w' = accounts w)) ∧
  (∀ k1 k2,
     k1 ≠ "__proto__" → k2 ≠ "__proto__" →
     storage_fails E (length (updates w)) = false →
     storage_fails E (S (length (updates w))) = false →
     ∃ tokens2,
       token_map
         (snd (User.addToken E username (Some k2)
                 (snd (User.addToken E username (Some k1) w))))
         username = Some tokens2 ∧
       is_Some (JS.obj_get tokens2 k1) ∧
       is_Some (JS.obj_get tokens2 k2) ∧
       (∀ k, k ≠ k1 → k ≠ k2 → JS.obj_get tokens2 k = JS.obj_get tokens k)).
Proof.
  intros Huser tokens. split_and!.
  - intros tokenname.
    destruct (addToken_full_run E username tokenname w user Huser)
      as (n & segments & post & Hrun & _).
    exists (uuid_v4 E (uuids w + n)). cbv zeta. rewrite Hrun.
    fold tokens.
    split_and!.
    + by destruct (storage_fails _ _), tokenname.
    + apply patch_size_only_tokens.
    + intros Hname. by apply obj_get_set_eq.
    + intros k Hk. by apply obj_get_set_ne.
    + destruct (storage_fails _ _); cbn [snd].
      * apply same_elsewhere_accounts. by destruct tokenname.
      * apply same_elsewhere_stored; [done|]. by destruct tokenname.
    + intros ->. cbn [snd]. by apply token_map_stored.
    + intros ->. cbn [snd]. by destruct tokenname.
  - intros tokenname. cbv zeta.
    rewrite (deleteToken_full_run E _ _ _ user Huser).
    assert (Hframe : ∀ k, k ≠ tokenname →
              JS.obj_get (JS.obj_delete tokens tokenname) k = JS.obj_get tokens k).
    { intros k Hk. by apply obj_get_delete_ne. }
    pose proof (patch_size_only_tokens (JS.obj_delete tokens tokenname)).
    destruct (apiTokens user) as [stored_tokens|] eqn:Htokens.
    + assert (tokens = stored_tokens) as Heq by reflexivity.
      rewrite <- Heq.
      destruct (JS.not (JS.read tokens tokenname)); [by frame_goals|].
      cbv zeta. destruct (storage_fails _ _); cbn [fst snd]; by frame_goals.
    + by frame_goals.
  - intros k1 k2 Hk1 Hk2 Hok1 Hok2.
    destruct (addToken_full_run E username (Some k1) w user Huser)
      as (n1 & segments1 & post1 & Hrun1 & _).
    rewrite Hok1 in Hrun1. fold tokens in Hrun1. rewrite Hrun1. cbn [snd].
    set (tokens1 := JS.obj_set tokens k1 (uuid_v4 E (uuids w + n1))).
    set (w1 := stored username (only_tokens tokens1)
                 (User.merge user (only_tokens tokens1))
                 (drawn_uuids (S n1) (named (Some k1) w))).
    assert (Huser1 : accounts w1 !! username
                     = Some (User.merge user (only_tokens tokens1))).
    { unfold w1, stored. simpl. by rewrite lookup_insert_eq. }
    destruct (addToken_full_run E username (Some k2) w1 _ Huser1)
      as (n2 & segments2 & post2 & Hrun2 & _).
    assert (Hlen : length (updates w1) = S (length (updates w))).
    { unfold w1. simpl. rewrite length_app. simpl. lia. }
    rewrite Hlen, Hok2 in Hrun2.
    cbn [User.merge only_tokens patch_apiTokens or_else name_of] in Hrun2.
    subst w1 tokens1. cbn [named name_of] in *. rewrite Hrun2. cbn [snd].
    eexists. split; [by apply token_map_stored|].
    cbn [User.merge only_tokens patch_apiTokens or_else apiTokens].
    split_and!.
    + destruct (decide (k2 = k1)) as [->|Hne].
      * rewrite obj_get_set_eq by done. by eexists.
      * rewrite obj_get_set_ne by done.
        rewrite obj_get_set_eq by done. by eexists.
    + rewrite obj_get_set_eq by done. by eexists.
    + intros k Hk Hk'. rewrite obj_get_set_ne by done.
      by rewrite obj_get_set_ne.
Qed.

Lemma writes_only_the_token_map_witness :
  accounts Scenario.couch !! "juan" = Some Scenario.juan ∧
  "k1" ≠ "__proto__" ∧ "k2" ≠ "__proto__" ∧
  storage_fails Scenario.calm (length (updates Scenario.couch)) = false ∧
  storage_fails Scenario.calm (S (length (updates Scenario.couch))) = false ∧
  ∃ tokens2,
    token_map
      (snd (User.addToken Scenario.calm "juan" (Some "k2")
              (snd (User.addToken Scenario.calm "juan" (Some "k1")
                      Scenario.couch))))
      "juan" = Some tokens2 ∧
    is_Some (JS.obj_get tokens2 "k1") ∧
    is_Some (JS.obj_get tokens2 "k2") ∧
    (∀ k, k ≠ "k1" → k ≠ "k2" →
       JS.obj_get tokens2 k
         = JS.obj_get (or_else (apiTokens Scenario.juan) []) k).
Proof.
  split; [reflexivity|]. split; [discriminate|]. split; [discriminate|].
  split; [reflexivity|]. split; [reflexivity|].
  destruct (writes_only_the_token_map Scenario.calm Scenario.couch "juan"
              Scenario.juan) as (_ & _ & Htwo); [reflexivity|].
  apply (Htwo "k1" "k2"); (discriminate || reflexivity).
Defined.

Example add_k1_then_k2 :
  token_map
    (snd (User.addToken Scenario.calm "charlie" (Some "k2")
            (snd (User.addToken Scenario.calm "charlie" (Some "k1")
                    Scenario.couch))))
    "charlie"
  = Some [("k1", Scenario.uuid_a); ("k2", Scenario.uuid_b)].
Proof. reflexivity. Qed.

(* ===================================================================== *)
(** * More facts about objects *)
(* ===================================================================== *)

Section MoreObjectFacts.

Context {V : Type}.
Implicit Types (o : JS.obj V) (k : string) (v : V).

Lemma obj_keys_delete o k :
  JS.obj_keys (JS.obj_delete o k) = filter (λ k', k' ≠ k) (JS.obj_keys o).
Proof.
  unfold JS.obj_keys. induction o as [|[k' v'] o IH]; [done|].
  cbn [JS.obj_delete map fst].
  destruct (String.eqb k' k) eqn:Hk.
  - apply String.eqb_eq in Hk as ->.
    by rewrite filter_cons_False by (by intros ?).
  - apply String.eqb_neq in Hk.
    rewrite filter_cons_True by done. cbn [map fst]. by rewrite IH.
Qed.

Lemma obj_wf_delete o k : JS.obj_wf o → JS.obj_wf (JS.obj_delete o k).
Proof.
  unfold JS.obj_wf. rewrite obj_keys_delete. apply NoDup_filter.
Qed.

Lemma obj_length_delete o k :
  JS.obj_wf o → k ∈ JS.obj_keys o →
  S (length (JS.obj_delete o k)) = length o.
Proof.
  unfold JS.obj_wf, JS.obj_keys.
  induction o as [|[k' v'] o IH]; intros Hwf Hk.
  - by apply elem_of_nil in Hk.
  - cbn [map fst] in Hwf, Hk. apply NoDup_cons in Hwf as [Hnotin Hwf].
    cbn [JS.obj_delete]. destruct (String.eqb k' k) eqn:Heq.
    + apply String.eqb_eq in Heq as ->. simpl. f_equal.
      clear IH Hk Hwf. induction o as [|[k0 v0] o IH]; [done|].
      cbn [map fst] in Hnotin. apply not_elem_of_cons in Hnotin as [Hne Hnotin].
      apply not_eq_sym, String.eqb_neq in Hne.
      cbn [JS.obj_delete]. rewrite Hne. simpl. f_equal. by apply IH.
    + apply String.eqb_neq in Heq.
      apply elem_of_cons in Hk as [->|Hk]; [done|].
      simpl. f_equal. by apply IH.
Qed.

End MoreObjectFacts.

(* ===================================================================== *)
(** * Deleting, continued *)
(* ===================================================================== *)

(** X1: on an account that carries a token map, [User.deleteToken] fails
    with its own error exactly when the value read under the name is
    [undefined], that is the name is neither a key of the map nor a
    property of [Object.prototype], or is the empty string; it then makes
    no call of [User.update] and leaves the world as it was, and the
    handler of DELETE answers 500 with that error.  A name that is not a
    key but is a property of [Object.prototype] passes the test: the call
    succeeds, and writes the map it read. *)
Theorem deleteToken_refuses_falsy (E : env) (w : world)
    (username tokenname : string) (user : account) (tokens : tokmap) :
  accounts w !! username = Some user →
  apiTokens user = Some tokens →
  (fst (User.deleteToken E username tokenname w) = Fail User.TokenNotFound
     ↔ (JS.obj_get tokens tokenname = None ∧ tokenname ∉ JS.prototype_names)
       ∨ JS.obj_get tokens tokenname = Some "") ∧
  ((JS.obj_get tokens tokenname = None ∧ tokenname ∉ JS.prototype_names)
   ∨ JS.obj_get tokens tokenname = Some "" →
   User.deleteToken E username tokenname w = (Fail User.TokenNotFound, w) ∧
   Routes.deleteToken E username tokenname w
     = (Json 500 (BodyErr User.TokenNotFound), w)) ∧
  (JS.obj_get tokens tokenname = None →
   tokenname ∈ JS.prototype_names →
   storage_fails E (length (updates w)) = false →
   ∃ w',
     User.deleteToken E username tokenname w = (Ok tt, w') ∧
     updates w' = (updates w ++ [(username, only_tokens tokens)])%list ∧
     token_map w' username = Some tokens).
Proof.
  intros Huser Htokens. unfold Routes.deleteToken.
  rewrite (deleteToken_full_run E _ _ _ user Huser), Htokens.
  rewrite <- not_read.
  destruct (JS.not (JS.read tokens tokenname)) eqn:Hnot.
  - split_and!; [done | done |].
    intros Hget Hproto _. apply not_read in Hnot as [[_ ?]|?]; [done|congruence].
  - cbv zeta. split_and!.
    + by destruct (storage_fails _ _).
    + done.
    + intros Hget Hproto ->. apply obj_get_None in Hget.
      rewrite obj_delete_notin by done.
      eexists. split_and!; [done | done |]. by apply token_map_stored.
Qed.

Lemma deleteToken_refuses_falsy_witness :
  accounts Scenario.couch !! "juan" = Some Scenario.juan ∧
  apiTokens Scenario.juan
    = Some [("ci-pipeline", Scenario.uuid_a); ("laptop", Scenario.uuid_b)] ∧
  User.deleteToken Scenario.calm "juan" "missing" Scenario.couch
    = (Fail User.TokenNotFound, Scenario.couch) ∧
  Routes.deleteToken Scenario.calm "juan" "missing" Scenario.couch
    = (Json 500 (BodyErr User.TokenNotFound), Scenario.couch).
Proof.
  split; [reflexivity|]. split; [reflexivity|].
  apply (deleteToken_refuses_falsy Scenario.calm Scenario.couch "juan"
           "missing" Scenario.juan
           [("ci-pipeline", Scenario.uuid_a); ("laptop", Scenario.uuid_b)]);
    [reflexivity | reflexivity |].
  left. split; [reflexivity|]. compute_done.
Defined.

Example deleteToken_constructor :
  fst (User.deleteToken Scenario.calm "juan" "constructor" Scenario.couch)
    = Ok tt ∧
  token_map
    (snd (User.deleteToken Scenario.calm "juan" "constructor" Scenario.couch))
    "juan"
    = Some [("ci-pipeline", Scenario.uuid_a); ("laptop", Scenario.uuid_b)].
Proof. split; reflexivity. Qed.

(** X2: deleting a name under which the value read is not falsy, such as a
    stored token whose value is not empty, while the storage engine works,
    succeeds with one call of [User.update]; the handler answers 201 with
    the name; the listing that follows lacks the name and shows every
    other name with the value it had. *)
Theorem deleteToken_removes_the_token (E : env) (w : world)
    (username tokenname : string) (user : account) (tokens : tokmap) :
  accounts w !! username = Some user →
  apiTokens user = Some tokens →
  JS.not (JS.read tokens tokenname) = false →
  storage_fails E (length (updates w)) = false →
  ∃ w',
    User.deleteToken E username tokenname w = (Ok tt, w') ∧
    Routes.deleteToken E username tokenname w
      = (Json 201 (BodyDeleted true tokenname), w') ∧
    length (updates w') = S (length (updates w)) ∧
    User.tokens username w'
      = (Ok (Wrap (JS.obj_delete tokens tokenname)), w') ∧
    JS.obj_get (JS.obj_delete tokens tokenname) tokenname = None ∧
    (∀ k, k ≠ tokenname →
       JS.obj_get (JS.obj_delete tokens tokenname) k = JS.obj_get tokens k).
Proof.
  intros Huser Htokens Hnot Hok. unfold Routes.deleteToken.
  rewrite (deleteToken_full_run E _ _ _ user Huser), Htokens, Hnot.
  cbv zeta. rewrite Hok. eexists. split_and!; try done.
  - simpl. rewrite length_app. simpl. lia.
  - unfold User.tokens, bind, User.get, stored. simpl.
    by rewrite lookup_insert_eq.
  - apply obj_get_delete_eq.
  - intros k Hk. by apply obj_get_delete_ne.
Qed.

Lemma deleteToken_removes_the_token_witness :
  accounts Scenario.couch !! "juan" = Some Scenario.juan ∧
  JS.not (JS.read [("ci-pipeline", Scenario.uuid_a);
                   ("laptop", Scenario.uuid_b)] "laptop") = false ∧
  storage_fails Scenario.calm (length (updates Scenario.couch)) = false ∧
  ∃ w',
    User.deleteToken Scenario.calm "juan" "laptop" Scenario.couch
      = (Ok tt, w') ∧
    User.tokens "juan" w'
      = (Ok (Wrap [("ci-pipeline", Scenario.uuid_a)]), w').
Proof.
  split; [reflexivity|]. split; [reflexivity|]. split; [reflexivity|].
  destruct (deleteToken_removes_the_token Scenario.calm Scenario.couch
              "juan" "laptop" Scenario.juan
              [("ci-pipeline", Scenario.uuid_a); ("laptop", Scenario.uuid_b)])
    as (w' & Hdel & _ & _ & Hlist & _); try reflexivity.
  exists w'. split; [exact Hdel | exact Hlist].
Defined.

(** X3: deleting is not idempotent.  After a successful deletion of a name
    that is not a property of [Object.prototype], a second deletion of the
    same name fails with the error of [User.deleteToken], whatever the
    storage engine does, and changes nothing. *)
Theorem deleteToken_twice_fails (E : env) (w w' : world)
    (username tokenname : string) :
  tokenname ∉ JS.prototype_names →
  User.deleteToken E username tokenname w = (Ok tt, w') →
  User.deleteToken E username tokenname w' = (Fail User.TokenNotFound, w') ∧
  Routes.deleteToken E username tokenname w'
    = (Json 500 (BodyErr User.TokenNotFound), w').
Proof.
  intros Hproto Hfirst.
  destruct (accounts w !! username) as [user|] eqn:Huser;
    [|by rewrite deleteToken_no_account in Hfirst].
  rewrite (deleteToken_full_run E _ _ _ user Huser) in Hfirst.
  destruct (apiTokens user) as [tokens|]; [|done].
  destruct (JS.not _); [done|]. cbv zeta in Hfirst.
  destruct (storage_fails _ _); [done|].
  injection Hfirst as <-.
  set (p := only_tokens (JS.obj_delete tokens tokenname)).
  assert (Hsecond :
    User.deleteToken E username tokenname
      (stored username p (User.merge user p) w)
    = (Fail User.TokenNotFound, stored username p (User.merge user p) w)).
  { apply (deleteToken_missing_token E _ _ _ (User.merge user p)
             (JS.obj_delete tokens tokenname)).
    - unfold stored. simpl. by rewrite lookup_insert_eq.
    - done.
    - apply obj_get_None, obj_get_delete_eq.
    - done. }
  split; [done|]. unfold Routes.deleteToken. by rewrite Hsecond.
Qed.

Lemma deleteToken_twice_fails_witness :
  ("laptop" ∉ JS.prototype_names) ∧
  User.deleteToken Scenario.calm "juan" "laptop" Scenario.couch
    = (Ok tt,
       snd (User.deleteToken Scenario.calm "juan" "laptop" Scenario.couch)) ∧
  fst (User.deleteToken Scenario.calm "juan" "laptop"
         (snd (User.deleteToken Scenario.calm "juan" "laptop"
                 Scenario.couch)))
    = Fail User.TokenNotFound.
Proof.
  assert (Hproto : "laptop" ∉ JS.prototype_names) by compute_done.
  split; [exact Hproto|]. split; [reflexivity|].
  destruct (deleteToken_twice_fails Scenario.calm Scenario.couch
              (snd (User.deleteToken Scenario.calm "juan" "laptop"
                      Scenario.couch))
              "juan" "laptop") as [Hsecond _]; [exact Hproto | reflexivity|].
  by rewrite Hsecond.
Defined.

Lemma ok_pair_inv {A} (a b : A) (w w' : world) :
  (Ok a, w) = (Ok b, w') → a = b ∧ w = w'.
Proof. by intros [= -> ->]. Qed.

(** X4: adding a token under a name the account does not hold and then
    deleting that name gives back the token map the account showed
    before, provided the value generated is not the empty string and the
    storage engine works for the deletion. *)
Theorem addToken_then_deleteToken (E : env) (w w1 : world)
    (username tokenname : string) (tokens answer : tokmap) :
  token_map w username = Some tokens →
  tokenname ∉ JS.obj_keys tokens →
  User.addToken E username (Some tokenname) w = (Ok answer, w1) →
  JS.obj_get answer tokenname ≠ Some "" →
  storage_fails E (length (updates w1)) = false →
  ∃ w2,
    User.deleteToken E username tokenname w1 = (Ok tt, w2) ∧
    token_map w2 username = Some tokens.
Proof.
  intros Hmap Hnew Hadd Hvalue Hok. unfold token_map in Hmap.
  destruct (accounts w !! username) as [user|] eqn:Huser; [|done].
  injection Hmap as Hmap.
  destruct (addToken_full_run E username (Some tokenname) w user Huser)
    as (n & segments & post & Hrun & _).
  cbv zeta in Hrun. cbn [name_of named] in Hrun. rewrite Hmap in Hrun.
  rewrite Hrun in Hadd.
  destruct (storage_fails E (length (updates w))); [done|].
  apply ok_pair_inv in Hadd as [<- <-].
  set (token := uuid_v4 E (uuids w + n)) in *.
  set (p := only_tokens (JS.obj_set tokens tokenname token)) in *.
  set (w1 := stored username p (User.merge user p) (drawn_uuids (S n) w)) in *.
  assert (Huser1 : accounts w1 !! username = Some (User.merge user p)).
  { unfold w1, stored. simpl. by rewrite lookup_insert_eq. }
  rewrite (deleteToken_full_run E _ _ _ _ Huser1).
  cbn [User.merge p only_tokens patch_apiTokens apiTokens].
  assert (Hback : JS.obj_delete (JS.obj_set tokens tokenname token) tokenname
                  = tokens) by by apply obj_delete_set_new.
  assert (Hnot : JS.not (JS.read (JS.obj_set tokens tokenname token) tokenname)
                 = false).
  { destruct (decide (tokenname = "__proto__")) as [->|Hproto].
    - apply obj_get_None in Hnew. rewrite obj_set_proto by done.
      rewrite read_inherited; [done | done | compute_done].
    - rewrite obj_get_set_eq in Hvalue by done.
      rewrite (read_own _ _ token) by by apply obj_get_set_eq.
      cbn [JS.not]. apply String.eqb_neq. congruence. }
  rewrite Hnot, Hok, Hback. cbv zeta. eexists. split; [done|].
  by apply token_map_stored.
Qed.

Lemma addToken_then_deleteToken_witness :
  token_map Scenario.couch "juan"
    = Some [("ci-pipeline", Scenario.uuid_a); ("laptop", Scenario.uuid_b)] ∧
  ("phone" ∉ JS.obj_keys [("ci-pipeline", Scenario.uuid_a);
                           ("laptop", Scenario.uuid_b)]) ∧
  User.addToken Scenario.calm "juan" (Some "phone") Scenario.couch
    = (Ok [("operation", "insert"); ("phone", Scenario.uuid_c)],
       snd (User.addToken Scenario.calm "juan" (Some "phone")
              Scenario.couch)) ∧
  ∃ w2,
    User.deleteToken Scenario.calm "juan" "phone"
      (snd (User.addToken Scenario.calm "juan" (Some "phone")
              Scenario.couch))
      = (Ok tt, w2) ∧
    token_map w2 "juan"
      = Some [("ci-pipeline", Scenario.uuid_a); ("laptop", Scenario.uuid_b)].
Proof.
  assert (Hnew : "phone" ∉ JS.obj_keys [("ci-pipeline", Scenario.uuid_a);
                                         ("laptop", Scenario.uuid_b)]).
  { apply obj_get_None. reflexivity. }
  split; [reflexivity|]. split; [exact Hnew|]. split; [reflexivity|].
  apply (addToken_then_deleteToken Scenario.calm Scenario.couch _ "juan"
           "phone" _ [("operation", "insert"); ("phone", Scenario.uuid_c)]);
    [reflexivity | exact Hnew | reflexivity | discriminate | reflexivity].
Defined.

(* ===================================================================== *)
(** * Adding, continued *)
(* ===================================================================== *)

(** A name given is used as it is; a generated name is never
    ["__proto__"]. *)
Lemma name_of_not_proto (E : env) (w : world) (tokenname : option string) :
  tokenname ≠ Some "__proto__" → name_of E tokenname w ≠ "__proto__".
Proof.
  destruct tokenname as [name|]; [|discriminate].
  cbn [name_of]. congruence.
Qed.

(** X5: whatever the name but ["__proto__"], the answer of a successful
    [User.addToken] holds under the name the value that the listing shows
    under it afterwards, and has no property besides ["operation"] and the
    name. *)
Theorem addToken_returns_the_stored_value (E : env) (w w' : world)
    (username : string) (tokenname : option string) (answer : tokmap) :
  tokenname ≠ Some "__proto__" →
  User.addToken E username tokenname w = (Ok answer, w') →
  ∃ token tokens',
    JS.obj_get answer (name_of E tokenname w) = Some token ∧
    User.tokens username w' = (Ok (Wrap tokens'), w') ∧
    JS.obj_get tokens' (name_of E tokenname w) = Some token ∧
    (∀ k, is_Some (JS.obj_get answer k) →
       k = "operation" ∨ k = name_of E tokenname w).
Proof.
  intros Hproto Hadd. apply (name_of_not_proto E w) in Hproto.
  destruct (accounts w !! username) as [user|] eqn:Huser;
    [|by rewrite addToken_no_account in Hadd].
  destruct (addToken_full_run E username tokenname w user Huser)
    as (n & segments & post & Hrun & _).
  cbv zeta in Hrun. rewrite Hrun in Hadd.
  destruct (storage_fails E (length (updates w))); [done|].
  apply ok_pair_inv in Hadd as [<- <-].
  eexists _, _. split_and!.
  - by apply obj_get_set_eq.
  - unfold User.tokens, bind, User.get, stored. simpl.
    by rewrite lookup_insert_eq.
  - by apply obj_get_set_eq.
  - intros k Hk.
    destruct (decide (k = name_of E tokenname w)) as [|Hne]; [by right|].
    left. rewrite obj_get_set_ne in Hk by done.
    cbn [JS.obj_get] in Hk. destruct (String.eqb "operation" k) eqn:Hop.
    + apply String.eqb_eq in Hop. by symmetry.
    + by destruct Hk.
Qed.

Lemma addToken_returns_the_stored_value_witness :
  Some "operation" ≠ Some "__proto__" ∧
  User.addToken Scenario.calm "charlie" (Some "operation") Scenario.couch
    = (Ok [("operation", Scenario.uuid_a)], Scenario.added_operation) ∧
  ∃ token tokens',
    JS.obj_get [("operation", Scenario.uuid_a)]
      (name_of Scenario.calm (Some "operation") Scenario.couch) = Some token ∧
    User.tokens "charlie" Scenario.added_operation
      = (Ok (Wrap tokens'), Scenario.added_operation) ∧
    JS.obj_get tokens' (name_of Scenario.calm (Some "operation") Scenario.couch)
      = Some token ∧
    (∀ k, is_Some (JS.obj_get [("operation", Scenario.uuid_a)] k) →
       k = "operation"
       ∨ k = name_of Scenario.calm (Some "operation") Scenario.couch).
Proof.
  split; [discriminate|]. split; [reflexivity|].
  apply (addToken_returns_the_stored_value Scenario.calm Scenario.couch
           Scenario.added_operation "charlie" (Some "operation"));
    [discriminate | reflexivity].
Defined.

(** A generated name is never ["operation"]. *)
Lemma generated_name_not_operation (E : env) (w : world) :
  name_of E None w ≠ "operation".
Proof. discriminate. Qed.

(** X6: a call of [User.addToken] without a name on an existing account,
    while the storage engine works, answers with the kind decided on the
    map read and with the generated name ["gen_..."] bound to the new
    value.  The generated name is not checked against the names the
    account holds: when it is one of them the kind is ["update"] and the
    stored value of that token is replaced. *)
Theorem addToken_generated_name_may_rotate (E : env) (w : world)
    (username : string) (user : account) :
  accounts w !! username = Some user →
  storage_fails E (length (updates w)) = false →
  ∃ token w',
    let tokens := or_else (apiTokens user) [] in
    let name := "gen_" +:+ JS.toString36 (random_1e9 E (randoms w)) in
    User.addToken E username None w
      = (Ok [("operation", operation tokens name); (name, token)], w') ∧
    (operation tokens name = "update" ↔ name ∈ JS.obj_keys tokens) ∧
    (operation tokens name = "insert" ↔ name ∉ JS.obj_keys tokens) ∧
    User.tokens username w' = (Ok (Wrap (JS.obj_set tokens name token)), w') ∧
    JS.obj_get (JS.obj_set tokens name token) name = Some token.
Proof.
  intros Huser Hok.
  destruct (addToken_full_run E username None w user Huser)
    as (n & segments & post & Hrun & _).
  cbv zeta in Hrun. rewrite Hok in Hrun. cbn [name_of] in Hrun.
  rewrite answer_plain in Hrun by (discriminate || reflexivity).
  eexists _, _. cbv zeta. split_and!.
  - exact Hrun.
  - apply operation_update.
  - apply operation_insert.
  - unfold User.tokens, bind, User.get, stored. simpl.
    by rewrite lookup_insert_eq.
  - by apply obj_get_set_eq.
Qed.

Lemma addToken_generated_name_may_rotate_witness :
  accounts Scenario.added_generated !! "charlie"
    = Some Scenario.charlie_generated ∧
  storage_fails Scenario.calm (length (updates Scenario.added_generated))
    = false ∧
  User.addToken Scenario.calm "charlie" None Scenario.added_generated
    = (Ok [("operation", "update"); ("gen_21i3v9", Scenario.uuid_b)],
       snd (User.addToken Scenario.calm "charlie" None
              Scenario.added_generated)) ∧
  ∃ token w',
    let tokens := or_else (apiTokens Scenario.charlie_generated) [] in
    let name :=
      "gen_" +:+
      JS.toString36
        (random_1e9 Scenario.calm (randoms Scenario.added_generated)) in
    User.addToken Scenario.calm "charlie" None Scenario.added_generated
      = (Ok [("operation", operation tokens name); (name, token)], w') ∧
    (operation tokens name = "update" ↔ name ∈ JS.obj_keys tokens) ∧
    (operation tokens name = "insert" ↔ name ∉ JS.obj_keys tokens) ∧
    User.tokens "charlie" w'
      = (Ok (Wrap (JS.obj_set tokens name token)), w') ∧
    JS.obj_get (JS.obj_set tokens name token) name = Some token.
Proof.
  split; [reflexivity|]. split; [reflexivity|]. split; [reflexivity|].
  apply (addToken_generated_name_may_rotate Scenario.calm
           Scenario.added_generated "charlie" Scenario.charlie_generated);
    reflexivity.
Defined.

(** X7: for every name but ["operation"] and ["__proto__"], the handler of
    PUT and POST on an existing account, while the storage engine works,
    answers 201 with an object of two properties: the kind under
    ["operation"] and the new value under the name.  The kind is
    ["update"] exactly when the name, given or generated with the prefix
    ["token_"], is a key of the token map read, and ["insert"]
    otherwise. *)
Theorem addOrUpdateToken_reports_kind (E : env) (w : world)
    (username : string) (tokenname : option string) (user : account) :
  accounts w !! username = Some user →
  storage_fails E (length (updates w)) = false →
  tokenname ≠ Some "operation" →
  tokenname ≠ Some "__proto__" →
  ∃ token w',
    let tokens := or_else (apiTokens user) [] in
    let name :=
      match tokenname with
      | Some name => name
      | None => "token_" +:+ JS.toString36 (random_1e9 E (randoms w))
      end in
    let answer := JS.obj_set [("operation", operation tokens name)] name token in
    Routes.addOrUpdateToken E username tokenname w
      = (Json 201 (BodyNewToken answer), w') ∧
    JS.obj_get answer "operation" = Some (operation tokens name) ∧
    JS.obj_get answer name = Some token ∧
    JS.obj_keys answer ≡ₚ ["operation"; name] ∧
    (operation tokens name = "update" ↔ name ∈ JS.obj_keys tokens) ∧
    (operation tokens name = "insert" ↔ name ∉ JS.obj_keys tokens) ∧
    token_map w' username = Some (JS.obj_set tokens name token).
Proof.
  intros Huser Hok Hname Hproto. unfold Routes.addOrUpdateToken.
  set (name := match tokenname with
               | Some name => name
               | None => "token_" +:+ JS.toString36 (random_1e9 E (randoms w))
               end).
  assert (Hname' : name ≠ "operation").
  { subst name. destruct tokenname; [congruence | discriminate]. }
  assert (Hproto' : name ≠ "__proto__").
  { subst name. destruct tokenname; [congruence | discriminate]. }
  assert (Hkeys : ∀ kind token : string,
            JS.obj_keys (JS.obj_set [("operation", kind)] name token)
              ≡ₚ ["operation"; name]).
  { intros kind token. rewrite obj_keys_set_new; [| |done].
    - apply Permutation_swap.
    - cbn. apply not_elem_of_cons. split; [done | apply not_elem_of_nil]. }
  destruct tokenname as [given|].
  - destruct (addToken_reports_operation E w username (Some given) user
                Huser Hok Hname')
      as (token & w' & Hrun & Hkind & Hvalue & Hupd & Hins & Hmap & _).
    cbv zeta in *. cbn [name_of] in *.
    exists token, w'. unfold bind, ret. rewrite Hrun.
    split_and!; try done. by apply Hvalue.
  - destruct (addToken_reports_operation E (drawn_random w) username
                (Some name) user Huser Hok Hname')
      as (token & w' & Hrun & Hkind & Hvalue & Hupd & Hins & Hmap & _).
    cbv zeta in *. cbn [name_of] in *.
    exists token, w'. unfold bind, ret, User.random_fragment.
    fold name. rewrite Hrun.
    split_and!; try done. by apply Hvalue.
Qed.

Lemma addOrUpdateToken_reports_kind_witness :
  accounts Scenario.couch !! "juan" = Some Scenario.juan ∧
  storage_fails Scenario.calm (length (updates Scenario.couch)) = false ∧
  Some "laptop" ≠ Some "operation" ∧
  Some "laptop" ≠ Some "__proto__" ∧
  ∃ token w',
    let tokens := or_else (apiTokens Scenario.juan) [] in
    let name := "laptop" in
    let answer := JS.obj_set [("operation", operation tokens name)] name token in
    Routes.addOrUpdateToken Scenario.calm "juan" (Some "laptop")
        Scenario.couch
      = (Json 201 (BodyNewToken answer), w') ∧
    JS.obj_get answer "operation" = Some (operation tokens name) ∧
    JS.obj_get answer name = Some token ∧
    JS.obj_keys answer ≡ₚ ["operation"; name] ∧
    (operation tokens name = "update" ↔ name ∈ JS.obj_keys tokens) ∧
    (operation tokens name = "insert" ↔ name ∉ JS.obj_keys tokens) ∧
    token_map w' "juan" = Some (JS.obj_set tokens name token).
Proof.
  split; [reflexivity|]. split; [reflexivity|]. split; [discriminate|].
  split; [discriminate|].
  apply (addOrUpdateToken_reports_kind Scenario.calm Scenario.couch "juan"
           (Some "laptop") Scenario.juan);
    [reflexivity | reflexivity | discriminate | discriminate].
Defined.

Example addOrUpdateToken_array_index :
  fst (Routes.addOrUpdateToken Scenario.calm "charlie" (Some "7")
         Scenario.couch)
    = Json 201 (BodyNewToken [("7", Scenario.uuid_a); ("operation", "insert")]).
Proof. reflexivity. Qed.

Lemma addToken_twice_rotates_witness :
  accounts Scenario.couch !! "juan" = Some Scenario.juan ∧
  JS.obj_wf (or_else (apiTokens Scenario.juan) []) ∧
  storage_fails Scenario.calm (length (updates Scenario.couch)) = false ∧
  storage_fails Scenario.calm (S (length (updates Scenario.couch))) = false ∧
  "ci-pipeline" ≠ "operation" ∧
  "ci-pipeline" ≠ "__proto__" ∧
  ∃ answer1 w1 answer2 value2 w2 tokens,
    User.addToken Scenario.calm "juan" (Some "ci-pipeline") Scenario.couch
      = (Ok answer1, w1) ∧
    User.addToken Scenario.calm "juan" (Some "ci-pipeline") w1
      = (Ok answer2, w2) ∧
    JS.obj_get answer2 "operation" = Some "update" ∧
    JS.obj_get answer2 "ci-pipeline" = Some value2 ∧
    token_map w2 "juan" = Some tokens ∧
    JS.obj_get tokens "ci-pipeline" = Some value2 ∧
    JS.obj_count tokens "ci-pipeline" = 1.
Proof.
  assert (Hwf : JS.obj_wf (or_else (apiTokens Scenario.juan) [])).
  { unfold JS.obj_wf. simpl. compute_done. }
  split; [reflexivity|]. split; [exact Hwf|]. split; [reflexivity|].
  split; [reflexivity|]. split; [discriminate|]. split; [discriminate|].
  apply (addToken_twice_rotates Scenario.calm Scenario.couch "juan"
           "ci-pipeline" Scenario.juan);
    [reflexivity | exact Hwf | reflexivity | reflexivity
    | discriminate | discriminate].
Defined.

(** X9: token names stay unique.  On an account whose token map has
    unique names, a successful [User.addToken] stores a map with unique
    names.  It has as many entries as before when the name was a key and
    one entry more when the name is new, and then exactly one entry of
    that name; but for the new name ["__proto__"], which stores the map
    as it was read. *)
Theorem addToken_keeps_names_unique (E : env) (w : world)
    (username : string) (tokenname : option string) (user : account) :
  accounts w !! username = Some user →
  JS.obj_wf (or_else (apiTokens user) []) →
  storage_fails E (length (updates w)) = false →
  ∃ tokens',
    let tokens := or_else (apiTokens user) [] in
    let name := name_of E tokenname w in
    token_map (snd (User.addToken E username tokenname w)) username
      = Some tokens' ∧
    JS.obj_wf tokens' ∧
    (name ≠ "__proto__" → JS.obj_count tokens' name = 1) ∧
    (name ∈ JS.obj_keys tokens → length tokens' = length tokens) ∧
    (name ∉ JS.obj_keys tokens → name ≠ "__proto__" →
     length tokens' = S (length tokens)) ∧
    (name ∉ JS.obj_keys tokens → name = "__proto__" → tokens' = tokens).
Proof.
  intros Huser Hwf Hok.
  destruct (addToken_full_run E username tokenname w user Huser)
    as (n & segments & post & Hrun & _).
  cbv zeta in Hrun. rewrite Hok in Hrun. rewrite Hrun. cbn [snd].
  eexists. cbv zeta. split_and!.
  - by apply token_map_stored.
  - by apply obj_wf_set.
  - intros Hproto. by apply obj_count_set.
  - intros Hin. by apply obj_length_set_own.
  - intros Hnotin Hproto. by apply obj_length_set_new.
  - intros Hnotin Heq. rewrite Heq in Hnotin |- *.
    apply obj_set_proto. by apply obj_get_None.
Qed.

Lemma addToken_keeps_names_unique_witness :
  accounts Scenario.couch !! "juan" = Some Scenario.juan ∧
  JS.obj_wf (or_else (apiTokens Scenario.juan) []) ∧
  storage_fails Scenario.calm (length (updates Scenario.couch)) = false ∧
  ∃ tokens',
    let tokens := or_else (apiTokens Scenario.juan) [] in
    let name := name_of Scenario.calm (Some "phone") Scenario.couch in
    token_map
      (snd (User.addToken Scenario.calm "juan" (Some "phone") Scenario.couch))
      "juan" = Some tokens' ∧
    JS.obj_wf tokens' ∧
    (name ≠ "__proto__" → JS.obj_count tokens' name = 1) ∧
    (name ∈ JS.obj_keys tokens → length tokens' = length tokens) ∧
    (name ∉ JS.obj_keys tokens → name ≠ "__proto__" →
     length tokens' = S (length tokens)) ∧
    (name ∉ JS.obj_keys tokens → name = "__proto__" → tokens' = tokens).
Proof.
  assert (Hwf : JS.obj_wf (or_else (apiTokens Scenario.juan) [])).
  { unfold JS.obj_wf. simpl. compute_done. }
  split; [reflexivity|]. split; [exact Hwf|]. split; [reflexivity|].
  apply (addToken_keeps_names_unique Scenario.calm Scenario.couch "juan"
           (Some "phone") Scenario.juan);
    [reflexivity | exact Hwf | reflexivity].
Defined.

(** X10: on an account whose token map has unique names, a successful
    [User.deleteToken] stores a map with unique names and without the
    name: one entry less when the name was a key, and the map as it was
    read when the name was not a key, which happens for the properties of
    [Object.prototype]. *)
Theorem deleteToken_keeps_names_unique (E : env) (w w' : world)
    (username tokenname : string) (tokens : tokmap) :
  token_map w username = Some tokens →
  JS.obj_wf tokens →
  User.deleteToken E username tokenname w = (Ok tt, w') →
  ∃ tokens',
    token_map w' username = Some tokens' ∧
    JS.obj_wf tokens' ∧
    JS.obj_count tokens' tokenname = 0 ∧
    (tokenname ∈ JS.obj_keys tokens → S (length tokens') = length tokens) ∧
    (tokenname ∉ JS.obj_keys tokens →
     tokens' = tokens ∧ tokenname ∈ JS.prototype_names).
Proof.
  intros Hmap Hwf Hdel. unfold token_map in Hmap.
  destruct (accounts w !! username) as [user|] eqn:Huser; [|done].
  injection Hmap as Hmap.
  rewrite (deleteToken_full_run E _ _ _ user Huser) in Hdel.
  destruct (apiTokens user) as [stored_tokens|]; [|done].
  simpl in Hmap. subst stored_tokens.
  destruct (JS.not (JS.read tokens tokenname)) eqn:Hnot; [done|].
  cbv zeta in Hdel.
  destruct (storage_fails _ _); [done|].
  apply ok_pair_inv in Hdel as [_ <-].
  eexists. split_and!.
  - by apply token_map_stored.
  - by apply obj_wf_delete.
  - apply obj_count_notin, obj_get_None, obj_get_delete_eq.
  - intros Hin. by apply obj_length_delete.
  - intros Hnotin. split; [by apply obj_delete_notin|].
    destruct (decide (tokenname ∈ JS.prototype_names)) as [|Hproto]; [done|].
    apply obj_get_None in Hnotin.
    rewrite read_missing in Hnot by done. done.
Qed.

Lemma deleteToken_keeps_names_unique_witness :
  token_map Scenario.couch "juan"
    = Some [("ci-pipeline", Scenario.uuid_a); ("laptop", Scenario.uuid_b)] ∧
  JS.obj_wf [("ci-pipeline", Scenario.uuid_a); ("laptop", Scenario.uuid_b)] ∧
  User.deleteToken Scenario.calm "juan" "laptop" Scenario.couch
    = (Ok tt,
       snd (User.deleteToken Scenario.calm "juan" "laptop" Scenario.couch)) ∧
  ∃ tokens',
    token_map
      (snd (User.deleteToken Scenario.calm "juan" "laptop" Scenario.couch))
      "juan" = Some tokens' ∧
    JS.obj_wf tokens' ∧
    JS.obj_count tokens' "laptop" = 0 ∧
    ("laptop" ∈ JS.obj_keys [("ci-pipeline", Scenario.uuid_a);
                             ("laptop", Scenario.uuid_b)] →
     S (length tokens') = 2) ∧
    ("laptop" ∉ JS.obj_keys [("ci-pipeline", Scenario.uuid_a);
                             ("laptop", Scenario.uuid_b)] →
     tokens' = [("ci-pipeline", Scenario.uuid_a); ("laptop", Scenario.uuid_b)]
     ∧ "laptop" ∈ JS.prototype_names).
Proof.
  assert (Hwf : JS.obj_wf [("ci-pipeline", Scenario.uuid_a);
                           ("laptop", Scenario.uuid_b)]).
  { unfold JS.obj_wf. simpl. compute_done. }
  split; [reflexivity|]. split; [exact Hwf|]. split; [reflexivity|].
  apply (deleteToken_keeps_names_unique Scenario.calm Scenario.couch _
           "juan" "laptop"
           [("ci-pipeline", Scenario.uuid_a); ("laptop", Scenario.uuid_b)]);
    [reflexivity | exact Hwf | reflexivity].
Defined.

(* ===================================================================== *)
(** * Errors, continued *)
(* ===================================================================== *)

(** X11: on an account that does not exist the three resource functions
    fail with the error of [User.get] and none calls [User.update];
    [User.addToken] has by then drawn its token value, and a name when
    none was given.  The handlers of DELETE, PUT and POST answer 500 with
    that error. *)
Theorem missing_account_is_reported (E : env) (w : world)
    (username tokenname : string) (name : option string) :
  accounts w !! username = None →
  User.tokens username w = (Fail NotFound, w) ∧
  User.deleteToken E username tokenname w = (Fail NotFound, w) ∧
  User.addToken E username name w
    = (Fail NotFound, drawn_uuids 1 (named name w)) ∧
  updates (snd (User.addToken E username name w)) = updates w ∧
  accounts (snd (User.addToken E username name w)) = accounts w ∧
  Routes.deleteToken E username tokenname w
    = (Json 500 (BodyErr NotFound), w) ∧
  fst (Routes.addOrUpdateToken E username name w)
    = Json 500 (BodyErr NotFound).
Proof.
  intros Hnone.
  rewrite tokens_no_account, deleteToken_no_account, addToken_no_account
    by done.
  split_and!; try done.
  - by destruct name.
  - by destruct name.
  - unfold Routes.deleteToken. by rewrite deleteToken_no_account.
  - unfold Routes.addOrUpdateToken, bind, ret, User.random_fragment.
    destruct name as [name|]; by rewrite addToken_no_account.
Qed.

Lemma missing_account_is_reported_witness :
  accounts Scenario.couch !! "daniel" = None ∧
  User.deleteToken Scenario.calm "daniel" "laptop" Scenario.couch
    = (Fail NotFound, Scenario.couch) ∧
  fst (Routes.addOrUpdateToken Scenario.calm "daniel" None Scenario.couch)
    = Json 500 (BodyErr NotFound).
Proof.
  destruct (missing_account_is_reported Scenario.calm Scenario.couch
              "daniel" "laptop" None) as (_ & Hdel & _ & _ & _ & _ & Hadd);
    [reflexivity|].
  split; [reflexivity|]. by split.
Defined.

(** X12: when the storage engine fails on the write, [User.addToken],
    with or without a name, and [User.deleteToken], for a name that
    passes its test, fail with [StorageError] after exactly one call of
    [User.update]; the handlers of PUT, POST and DELETE answer 500 with
    that error, and no document has changed. *)
Theorem storage_failure_is_reported (E : env) (w : world)
    (username tokenname : string) (name : option string) (user : account) :
  accounts w !! username = Some user →
  storage_fails E (length (updates w)) = true →
  fst (User.addToken E username name w) = Fail StorageError ∧
  length (updates (snd (User.addToken E username name w)))
    = S (length (updates w)) ∧
  accounts (snd (User.addToken E username name w)) = accounts w ∧
  fst (Routes.addOrUpdateToken E username name w)
    = Json 500 (BodyErr StorageError) ∧
  length (updates (snd (Routes.addOrUpdateToken E username name w)))
    = S (length (updates w)) ∧
  accounts (snd (Routes.addOrUpdateToken E username name w)) = accounts w ∧
  (∀ tokens, apiTokens user = Some tokens →
     JS.not (JS.read tokens tokenname) = false →
     fst (User.deleteToken E username tokenname w) = Fail StorageError ∧
     fst (Routes.deleteToken E username tokenname w)
       = Json 500 (BodyErr StorageError) ∧
     length (updates (snd (User.deleteToken E username tokenname w)))
       = S (length (updates w)) ∧
     accounts (snd (User.deleteToken E username tokenname w)) = accounts w).
Proof.
  intros Huser Hfails.
  assert (Hadd : ∀ given w0,
            accounts w0 = accounts w → updates w0 = updates w →
            fst (User.addToken E username given w0) = Fail StorageError ∧
            length (updates (snd (User.addToken E username given w0)))
              = S (length (updates w)) ∧
            accounts (snd (User.addToken E username given w0)) = accounts w).
  { intros given w0 Hacc Hupd.
    assert (Huser0 : accounts w0 !! username = Some user) by by rewrite Hacc.
    destruct (addToken_full_run E username given w0 user Huser0)
      as (n & segments & post & Hrun & _).
    cbv zeta in Hrun. rewrite Hupd, Hfails in Hrun. rewrite Hrun.
    split_and!.
    - done.
    - cbn [snd]. destruct given; simpl; rewrite length_app, Hupd; simpl; lia.
    - cbn [snd]. by destruct given. }
  assert (Hroute :
            fst (Routes.addOrUpdateToken E username name w)
              = Json 500 (BodyErr StorageError) ∧
            length (updates (snd (Routes.addOrUpdateToken E username name w)))
              = S (length (updates w)) ∧
            accounts (snd (Routes.addOrUpdateToken E username name w))
              = accounts w).
  { unfold Routes.addOrUpdateToken, bind, ret, User.random_fragment.
    destruct name as [given|].
    - destruct (Hadd (Some given) w eq_refl eq_refl) as (Hfst & Hlen & Hacc).
      destruct (User.addToken E username (Some given) w) as [result w'].
      cbn [fst snd] in Hfst, Hlen, Hacc. by subst result.
    - destruct (Hadd (Some ("token_" +:+ JS.toString36 (random_1e9 E (randoms w))))
                  (drawn_random w) eq_refl eq_refl) as (Hfst & Hlen & Hacc).
      destruct (User.addToken E username _ (drawn_random w)) as [result w'].
      cbn [fst snd] in Hfst, Hlen, Hacc. by subst result. }
  destruct (Hadd name w eq_refl eq_refl) as (Hfst & Hlen & Hacc).
  destruct Hroute as (Hrfst & Hrlen & Hracc).
  split_and!; [done | done | done | done | done | done |].
  - intros tokens Htokens Hnot. unfold Routes.deleteToken.
    rewrite (deleteToken_full_run E _ _ _ user Huser), Htokens, Hnot.
    cbv zeta. rewrite Hfails. split_and!; try done.
    simpl. rewrite length_app. simpl. lia.
Qed.

(** X13: for a caller not authenticated by username and password the
    handler of GET raises a [TypeError], and sends no answer, exactly when
    the account does not exist; it never changes the world. *)
Theorem get_by_token_raises_without_account (w : world) (username : string)
    (authMethod : authMethod) :
  method authMethod ≠ "username/password" →
  (fst (Routes.get username authMethod w) = Uncaught TypeError
     ↔ accounts w !! username = None) ∧
  snd (Routes.get username authMethod w) = w.
Proof.
  intros Hmethod. apply String.eqb_neq in Hmethod.
  unfold Routes.get, User.tokens, bind, User.get, ret. rewrite Hmethod.
  destruct (accounts w !! username); simpl; by split.
Qed.

Lemma get_by_token_raises_without_account_witness :
  method (Scenario.by_token "laptop") ≠ "username/password" ∧
  accounts Scenario.couch !! "daniel" = None ∧
  fst (Routes.get "daniel" (Scenario.by_token "laptop") Scenario.couch)
    = Uncaught TypeError.
Proof.
  assert (Hmethod : method (Scenario.by_token "laptop") ≠ "username/password")
    by discriminate.
  split; [exact Hmethod|]. split; [reflexivity|].
  apply (get_by_token_raises_without_account Scenario.couch "daniel"
           (Scenario.by_token "laptop") Hmethod).
  reflexivity.
Defined.

(** X14: for a caller authenticated by username and password the handler
    of GET answers 200 with the whole token map of an existing account,
    the empty map when the document has none, and 500 with the error of
    [User.get] otherwise; it never changes the world. *)
Theorem get_by_password_lists_all (w : world) (username : string)
    (authMethod : authMethod) :
  method authMethod = "username/password" →
  (∀ user, accounts w !! username = Some user →
     fst (Routes.get username authMethod w)
       = Json 200 (BodyTokens (Wrap (or_else (apiTokens user) [])))) ∧
  (accounts w !! username = None →
     fst (Routes.get username authMethod w) = Json 500 (BodyErr NotFound)) ∧
  (∀ status tokens,
     fst (Routes.get username authMethod w)
       = Json status (BodyTokens (Wrap tokens)) →
     status = 200 ∧ token_map w username = Some tokens) ∧
  snd (Routes.get username authMethod w) = w.
Proof.
  intros Hmethod. apply String.eqb_eq in Hmethod.
  unfold Routes.get, User.tokens, bind, User.get, ret, token_map.
  rewrite Hmethod.
  destruct (accounts w !! username) as [user|]; simpl; split_and!; try done.
  - by intros user' [= <-].
  - by intros status tokens [= <- <-].
Qed.

Lemma get_by_password_lists_all_witness :
  method Scenario.by_password = "username/password" ∧
  accounts Scenario.couch !! "juan" = Some Scenario.juan ∧
  fst (Routes.get "juan" Scenario.by_password Scenario.couch)
    = Json 200 (BodyTokens (Wrap (or_else (apiTokens Scenario.juan) []))).
Proof.
  split; [reflexivity|]. split; [reflexivity|].
  apply (proj1 (get_by_password_lists_all Scenario.couch "juan"
                  Scenario.by_password eq_refl) Scenario.juan).
  reflexivity.
Defined.

Lemma storage_failure_is_reported_witness :
  accounts Scenario.couch !! "juan" = Some Scenario.juan ∧
  storage_fails Scenario.failing (length (updates Scenario.couch)) = true ∧
  fst (User.addToken Scenario.failing "juan" None Scenario.couch)
    = Fail StorageError ∧
  fst (Routes.addOrUpdateToken Scenario.failing "juan" None Scenario.couch)
    = Json 500 (BodyErr StorageError) ∧
  fst (Routes.deleteToken Scenario.failing "juan" "laptop" Scenario.couch)
    = Json 500 (BodyErr StorageError).
Proof.
  destruct (storage_failure_is_reported Scenario.failing Scenario.couch
              "juan" "laptop" None Scenario.juan)
    as (Hadd & _ & _ & Hpost & _ & _ & Hdel); [reflexivity | reflexivity |].
  destruct (Hdel [("ci-pipeline", Scenario.uuid_a);
                  ("laptop", Scenario.uuid_b)])
    as (_ & Hroute & _); [reflexivity | reflexivity |].
  split; [reflexivity|]. split; [reflexivity|]. by split_and!.
Defined.

(* ===================================================================== *)
(** * Adding and then listing or deleting *)
(* ===================================================================== *)

(** The handler of GET on an existing account. *)
Lemma get_run (username : string) (authMethod : authMethod) (w : world)
    (user : account) :
  accounts w !! username = Some user →
  Routes.get username authMethod w =
    (if negb (String.eqb (method authMethod) "username/password")
     then Json 200
            (BodyFiltered
               (Wrap (JS.obj_set [] (id authMethod)
                        (JS.read (or_else (apiTokens user) [])
                           (id authMethod)))))
     else Json 200 (BodyTokens (Wrap (or_else (apiTokens user) []))),
     w).
Proof.
  intros Huser. unfold Routes.get, User.tokens, bind, User.get, ret.
  rewrite Huser. by destruct (negb _).
Qed.

(** X15: after a successful [User.addToken] under a name other than
    ["__proto__"], a caller authenticated by the token of that name is
    answered by the handler of GET with exactly the name bound to the
    value the call returned, and a caller authenticated by password with a
    map that holds the name with that value. *)
Theorem addToken_then_get (E : env) (w w' : world) (username : string)
    (tokenname : option string) (answer : tokmap)
    (byToken byPassword : authMethod) :
  tokenname ≠ Some "__proto__" →
  User.addToken E username tokenname w = (Ok answer, w') →
  method byToken ≠ "username/password" →
  id byToken = name_of E tokenname w →
  method byPassword = "username/password" →
  ∃ token,
    JS.obj_get answer (name_of E tokenname w) = Some token ∧
    Routes.get username byToken w'
      = (Json 200
           (BodyFiltered (Wrap [(name_of E tokenname w, JS.str token)])),
         w') ∧
    ∃ tokens',
      Routes.get username byPassword w'
        = (Json 200 (BodyTokens (Wrap tokens')), w') ∧
      JS.obj_get tokens' (name_of E tokenname w) = Some token.
Proof.
  intros Hproto Hadd HbyToken Hid HbyPassword.
  apply (name_of_not_proto E w) in Hproto.
  apply String.eqb_neq in HbyToken. apply String.eqb_eq in HbyPassword.
  destruct (accounts w !! username) as [user|] eqn:Huser;
    [|by rewrite addToken_no_account in Hadd].
  destruct (addToken_full_run E username tokenname w user Huser)
    as (n & segments & post & Hrun & _).
  cbv zeta in Hrun. rewrite Hrun in Hadd.
  destruct (storage_fails E (length (updates w))); [done|].
  apply ok_pair_inv in Hadd as [<- <-].
  set (token := uuid_v4 E (uuids w + n)).
  set (tokens' := JS.obj_set (or_else (apiTokens user) [])
                    (name_of E tokenname w) token).
  set (w' := stored username (only_tokens tokens')
               (User.merge user (only_tokens tokens'))
               (drawn_uuids (S n) (named tokenname w))).
  assert (Huser' : accounts w' !! username
                   = Some (User.merge user (only_tokens tokens'))).
  { unfold w', stored. simpl. by rewrite lookup_insert_eq. }
  assert (Hstored : JS.obj_get tokens' (name_of E tokenname w) = Some token)
    by by apply obj_get_set_eq.
  exists token. split; [by apply obj_get_set_eq|].
  rewrite !(get_run _ _ _ _ Huser'), HbyToken, HbyPassword, Hid.
  cbn [negb User.merge only_tokens patch_apiTokens apiTokens or_else].
  rewrite (read_own _ _ _ Hstored), obj_set_empty by done.
  split; [done|]. by eexists.
Qed.

Lemma addToken_then_get_witness :
  Some "phone" ≠ Some "__proto__" ∧
  User.addToken Scenario.calm "juan" (Some "phone") Scenario.couch
    = (Ok [("operation", "insert"); ("phone", Scenario.uuid_c)],
       snd (User.addToken Scenario.calm "juan" (Some "phone")
              Scenario.couch)) ∧
  method (Scenario.by_token "phone") ≠ "username/password" ∧
  id (Scenario.by_token "phone")
    = name_of Scenario.calm (Some "phone") Scenario.couch ∧
  method Scenario.by_password = "username/password" ∧
  ∃ token,
    JS.obj_get [("operation", "insert"); ("phone", Scenario.uuid_c)]
      (name_of Scenario.calm (Some "phone") Scenario.couch) = Some token ∧
    Routes.get "juan" (Scenario.by_token "phone")
      (snd (User.addToken Scenario.calm "juan" (Some "phone") Scenario.couch))
    = (Json 200
         (BodyFiltered
            (Wrap [(name_of Scenario.calm (Some "phone") Scenario.couch,
                    JS.str token)])),
       snd (User.addToken Scenario.calm "juan" (Some "phone") Scenario.couch))
    ∧
    ∃ tokens',
      Routes.get "juan" Scenario.by_password
        (snd (User.addToken Scenario.calm "juan" (Some "phone") Scenario.couch))
      = (Json 200 (BodyTokens (Wrap tokens')),
         snd (User.addToken Scenario.calm "juan" (Some "phone")
                Scenario.couch)) ∧
      JS.obj_get tokens' (name_of Scenario.calm (Some "phone") Scenario.couch)
        = Some token.
Proof.
  assert (Hmethod : method (Scenario.by_token "phone") ≠ "username/password")
    by discriminate.
  split; [discriminate|].
  split; [reflexivity|]. split; [exact Hmethod|]. split; [reflexivity|].
  split; [reflexivity|].
  apply (addToken_then_get Scenario.calm Scenario.couch _ "juan"
           (Some "phone")
           [("operation", "insert"); ("phone", Scenario.uuid_c)]
           (Scenario.by_token "phone") Scenario.by_password);
    [discriminate | reflexivity | exact Hmethod | reflexivity | reflexivity].
Defined.

(** X16: once [User.addToken] has succeeded on an account, the document
    carries a token map: [User.deleteToken] on that account raises no
    [TypeError], whatever the name, and fails with its own error for every
    name that is neither a key of the stored map nor a property of
    [Object.prototype]. *)
Theorem addToken_creates_the_token_map (E : env) (w w' : world)
    (username : string) (tokenname : option string) (answer : tokmap) :
  User.addToken E username tokenname w = (Ok answer, w') →
  ∃ user' tokens',
    accounts w' !! username = Some user' ∧
    apiTokens user' = Some tokens' ∧
    (∀ E' k x, fst (User.deleteToken E' username k w') ≠ Throw x) ∧
    (∀ E' k, k ∉ JS.obj_keys tokens' → k ∉ JS.prototype_names →
       User.deleteToken E' username k w' = (Fail User.TokenNotFound, w')).
Proof.
  intros Hadd.
  destruct (accounts w !! username) as [user|] eqn:Huser;
    [|by rewrite addToken_no_account in Hadd].
  destruct (addToken_full_run E username tokenname w user Huser)
    as (n & segments & post & Hrun & _).
  cbv zeta in Hrun. rewrite Hrun in Hadd.
  destruct (storage_fails E (length (updates w))); [done|].
  apply ok_pair_inv in Hadd as [_ <-].
  eexists _, _.
  assert (Huser' :
    accounts
      (stored username
         (only_tokens
            (JS.obj_set (or_else (apiTokens user) []) (name_of E tokenname w)
               (uuid_v4 E (uuids w + n))))
         (User.merge user
            (only_tokens
               (JS.obj_set (or_else (apiTokens user) [])
                  (name_of E tokenname w) (uuid_v4 E (uuids w + n)))))
         (drawn_uuids (S n) (named tokenname w))) !! username
    = Some (User.merge user
              (only_tokens
                 (JS.obj_set (or_else (apiTokens user) [])
                    (name_of E tokenname w) (uuid_v4 E (uuids w + n)))))).
  { unfold stored. simpl. by rewrite lookup_insert_eq. }
  split_and!; [exact Huser' | reflexivity | |].
  - intros E' k x. rewrite (deleteToken_full_run E' _ _ _ _ Huser').
    cbn [User.merge only_tokens patch_apiTokens apiTokens].
    destruct (JS.not _); [done|]. cbv zeta.
    by destruct (storage_fails _ _).
  - intros E' k Hk Hproto.
    by apply (deleteToken_missing_token E' _ _ _ _ _ Huser' eq_refl).
Qed.

Lemma addToken_creates_the_token_map_witness :
  User.addToken Scenario.calm "charlie" (Some "k") Scenario.couch
    = (Ok [("operation", "insert"); ("k", Scenario.uuid_a)],
       Scenario.added_k) ∧
  User.deleteToken Scenario.calm "charlie" "missing" Scenario.couch
    = (Throw TypeError, Scenario.couch) ∧
  ∃ user' tokens',
    accounts Scenario.added_k !! "charlie" = Some user' ∧
    apiTokens user' = Some tokens' ∧
    (∀ E' k x,
       fst (User.deleteToken E' "charlie" k Scenario.added_k) ≠ Throw x) ∧
    (∀ E' k, k ∉ JS.obj_keys tokens' → k ∉ JS.prototype_names →
       User.deleteToken E' "charlie" k Scenario.added_k
         = (Fail User.TokenNotFound, Scenario.added_k)).
Proof.
  split; [reflexivity|]. split; [reflexivity|].
  apply (addToken_creates_the_token_map Scenario.calm Scenario.couch
           Scenario.added_k "charlie" (Some "k")
           [("operation", "insert"); ("k", Scenario.uuid_a)]).
  reflexivity.
Defined.

(* ===================================================================== *)
(** * Generated names *)
(* ===================================================================== *)

(** X17: the fragment of a generated name is read back as the random
    integer it was made from, so two generated names coincide only when
    they carry the same prefix and were made from the same integer. *)
Theorem generated_names_are_injective (n m : N) :
  JS.parse36 (JS.toString36 n) = Some n ∧
  (JS.toString36 n = JS.toString36 m → n = m) ∧
  ("gen_" +:+ JS.toString36 n = "gen_" +:+ JS.toString36 m → n = m) ∧
  ("token_" +:+ JS.toString36 n = "token_" +:+ JS.toString36 m → n = m).
Proof.
  assert (Hread : ∀ k, JS.parse36_aux (JS.toString36 k) 0 = Some k).
  { intros k. destruct (toString36_numeral k) as [Hparse _].
    by rewrite Hparse. }
  assert (Hinj : JS.toString36 n = JS.toString36 m → n = m).
  { intros Heq. pose proof (Hread n) as Hn. rewrite Heq, Hread in Hn.
    congruence. }
  split_and!.
  - unfold JS.parse36. destruct (JS.toString36 n) eqn:Hs; [|by rewrite <- Hs].
    destruct (toString36_numeral n) as [Hparse Hlen]. rewrite Hs in Hparse, Hlen.
    specialize (Hparse 1%N). simpl in Hparse, Hlen. injection Hparse as Hparse.
    destruct Hlen as [?|Hlen]; [done|].
    change (36 ^ (0 - 1))%N with 1%N in Hlen. change (36 ^ 0)%N with 1%N in Hparse.
    lia.
  - exact Hinj.
  - intros [= Heq]. by apply Hinj.
  - intros [= Heq]. by apply Hinj.
Qed.

Lemma generated_names_are_injective_witness :
  JS.toString36 999999999 = JS.toString36 999999999 ∧
  JS.parse36 (JS.toString36 999999999) = Some 999999999%N ∧
  999999999%N = 999999999%N.
Proof.
  destruct (generated_names_are_injective 999999999 999999999)
    as (Hread & Hinj & _).
  split; [reflexivity|]. split; [exact Hread|].
  apply Hinj. reflexivity.
Defined.
